(** * Matchmaking queue: a shallow embedding of [matchmaker.py]

    The Python module keeps a list of waiting [Player] objects inside a
    [Matchmaker] and searches it for a window of [2 * team_size] players
    whose rating spread fits a tolerance that grows with waiting time.

    Modelling decisions
    - Python objects are references: a [Player] is a location [loc] into an
      object store [Heap]; the queue and the teams are lists of locations,
      so one object queued twice is the same location twice.
    - Python [int] is [Z].  The readings of [time.time()] and the
      [queue_time] field are finite doubles in the source; a finite double
      is a rational number and is carried as that rational [Q], on which
      comparison and equality are those of the doubles.
    - The arithmetic of lines 46-47 is given twice.  [find_match] evaluates
      it in exact rational arithmetic.  [find_match64] evaluates it as
      Python does, in binary64: every operation rounded to nearest, ties to
      even, overflow to infinity, and OverflowError when an [int] operand
      is too large to convert.  Both run the same loop.
    - [time.time()] is an input: [add_to_queue] receives the reading, and
      [find_match] receives [clock], where [clock i] is the reading taken
      in loop iteration [i].
    - Exceptions are explicit: a call returns an [outcome] together with
      the matchmaker it leaves behind. *)

From Stdlib Require Import String Ascii Bool ZArith QArith Qround Qabs Lia List.
From Stdlib Require Import Permutation Sorted.
Import ListNotations.
Local Open Scope Z_scope.

(** ** Data model *)

Definition loc := nat.

Record Player := mkPlayer {
  id : string;
  mmr : Z;
  queue_time : Q
}.

Definition Heap := loc -> Player.

Record Match := mkMatch {
  team1 : list loc;
  team2 : list loc;
  average_mmr : Z
}.

Record Matchmaker := mkMatchmaker {
  queue : list loc;
  base_range : Z;
  range_expansion : Z
}.

Inductive exn := IndexError | ValueError | OverflowError.

Inductive outcome :=
| Returned (r : option Match)
| Raised (e : exn).

(** The [__eq__] a dataclass generates compares the field tuples. *)
Definition Player_eqb (a b : Player) : bool :=
  String.eqb (id a) (id b) && Z.eqb (mmr a) (mmr b)
  && Qeq_bool (queue_time a) (queue_time b).

(** [x is y or x == y], the test [list.remove] applies to each element. *)
Definition py_eq (h : Heap) (x y : loc) : bool :=
  Nat.eqb x y || Player_eqb (h x) (h y).

(** ** Python list primitives *)

(** Normalisation of one slice bound against a list of length [len]. *)
Definition py_clamp (len x : Z) : Z :=
  if x <? 0 then Z.max (x + len) 0 else Z.min x len.

(** [l[start:stop]] *)
Definition py_slice {A} (l : list A) (start stop : Z) : list A :=
  let len := Z.of_nat (length l) in
  let lo := py_clamp len start in
  let hi := py_clamp len stop in
  firstn (Z.to_nat (hi - lo)) (skipn (Z.to_nat lo) l).

(** [range(n)] *)
Definition py_range (n : Z) : list Z :=
  map Z.of_nat (seq 0 (Z.to_nat n)).

(** [l[0]] and [l[-1]]; [None] stands for IndexError. *)
Definition py_first {A} (l : list A) : option A :=
  match l with
  | [] => None
  | x :: _ => Some x
  end.

Fixpoint py_last {A} (l : list A) : option A :=
  match l with
  | [] => None
  | [x] => Some x
  | _ :: tl => py_last tl
  end.

(** [l[::2]] and [l[1::2]] *)
Fixpoint evens {A} (l : list A) : list A :=
  match l with
  | [] => []
  | x :: tl =>
      x :: match tl with
           | [] => []
           | _ :: tl' => evens tl'
           end
  end.

Definition odds {A} (l : list A) : list A := evens (tl l).

(** [list.remove(p)]: drops the first element equal to [p];
    [None] stands for ValueError. *)
Fixpoint py_remove (h : Heap) (p : loc) (l : list loc) : option (list loc) :=
  match l with
  | [] => None
  | x :: tl =>
      if py_eq h x p then Some tl
      else match py_remove h p tl with
           | Some tl' => Some (x :: tl')
           | None => None
           end
  end.

(** [sorted(l, key=lambda p: p.mmr)].  Python's sort is stable; the stable
    ordering of a list is unique and is computed here by insertion, each
    player going in front of the later players of equal rating. *)
Fixpoint insert_by_mmr (h : Heap) (p : loc) (l : list loc) : list loc :=
  match l with
  | [] => [p]
  | x :: tl =>
      if mmr (h p) <=? mmr (h x) then p :: x :: tl
      else x :: insert_by_mmr h p tl
  end.

Definition sorted_by_mmr (h : Heap) (l : list loc) : list loc :=
  fold_right (insert_by_mmr h) [] l.

(** [min(p.queue_time for p in candidates)]: the first smallest reading;
    [None] stands for the ValueError of an empty sequence. *)
Definition Qlt_bool (a b : Q) : bool := negb (Qle_bool b a).

Fixpoint min_from (cur : Q) (l : list Q) : Q :=
  match l with
  | [] => cur
  | x :: tl => min_from (if Qlt_bool x cur then x else cur) tl
  end.

Definition min_queue_time (h : Heap) (candidates : list loc) : option Q :=
  match candidates with
  | [] => None
  | p :: tl => Some (min_from (queue_time (h p)) (map (fun q => queue_time (h q)) tl))
  end.

(** [sum(p.mmr for p in candidates)] *)
Definition sum_mmr (h : Heap) (candidates : list loc) : Z :=
  fold_left (fun acc p => acc + mmr (h p)) candidates 0.

(** ** Matchmaker.add_to_queue *)

Definition set_queue_time (p : Player) (t : Q) : Player :=
  mkPlayer (id p) (mmr p) t.

Definition add_to_queue (now : Q) (h : Heap) (self : Matchmaker) (player : loc)
  : Heap * Matchmaker :=
  let h' := fun l => if Nat.eqb l player then set_queue_time (h l) now else h l in
  (h', mkMatchmaker (queue self ++ [player]) (base_range self) (range_expansion self)).

(** ** Matchmaker.find_match *)

(** [wait_time * self.range_expansion] added to [self.base_range], in exact
    arithmetic; [tolerance64] below is the same computation in binary64. *)
Definition allowed_range (self : Matchmaker) (wait_time : Q) : Q :=
  (inject_Z (base_range self) + wait_time * inject_Z (range_expansion self))%Q.

(** The test [mmr_range <= allowed_range] for candidates whose earliest
    enqueue reading is [earliest], at clock reading [now], in exact
    arithmetic. *)
Definition within_range (self : Matchmaker) (mmr_range : Z) (now earliest : Q) : bool :=
  let wait_time := (now - earliest)%Q in
  Qle_bool (inject_Z mmr_range) (allowed_range self wait_time).

(** The loop [for p in candidates: self.queue.remove(p)]; when a removal
    raises, the queue keeps the removals made so far. *)
Fixpoint remove_candidates (h : Heap) (candidates q : list loc) : option exn * list loc :=
  match candidates with
  | [] => (None, q)
  | p :: rest =>
      match py_remove h p q with
      | None => (Some ValueError, q)
      | Some q' => remove_candidates h rest q'
      end
  end.

Definition build_match (h : Heap) (candidates : list loc) : Match :=
  mkMatch (evens candidates) (odds candidates)
          (sum_mmr h candidates / Z.of_nat (length candidates)).

Definition set_queue (self : Matchmaker) (q : list loc) : Matchmaker :=
  mkMatchmaker q (base_range self) (range_expansion self).

(** One iteration of the [for i in range(...)] loop. *)
Inductive step :=
| Continue
| Done (o : outcome) (self' : Matchmaker).

Definition window_step (clock : Z -> Q) (h : Heap) (self : Matchmaker)
           (team_size : Z) (sorted_players : list loc) (i : Z) : step :=
  let candidates := py_slice sorted_players i (i + team_size * 2) in
  match py_last candidates, py_first candidates with
  | Some hi, Some lo =>
      let mmr_range := mmr (h hi) - mmr (h lo) in
      let now := clock i in
      match min_queue_time h candidates with
      | None => Done (Raised ValueError) self
      | Some earliest =>
          if within_range self mmr_range now earliest then
            match remove_candidates h candidates (queue self) with
            | (Some e, q') => Done (Raised e) (set_queue self q')
            | (None, q') =>
                Done (Returned (Some (build_match h candidates))) (set_queue self q')
            end
          else Continue
      end
  | _, _ => Done (Raised IndexError) self
  end.

Fixpoint scan (body : Z -> step) (self : Matchmaker) (indices : list Z)
  : outcome * Matchmaker :=
  match indices with
  | [] => (Returned None, self)
  | i :: rest =>
      match body i with
      | Continue => scan body self rest
      | Done o self' => (o, self')
      end
  end.

Definition find_match (clock : Z -> Q) (h : Heap) (self : Matchmaker) (team_size : Z)
  : outcome * Matchmaker :=
  if Z.of_nat (length (queue self)) <? team_size * 2 then (Returned None, self)
  else
    let sorted_players := sorted_by_mmr h (queue self) in
    scan (window_step clock h self team_size sorted_players) self
         (py_range (Z.of_nat (length sorted_players) - team_size * 2 + 1)).

(** ** Notions used to state the properties *)

(** How many elements of [l] the test of [list.remove] finds equal to [x]. *)
Definition count_eq (h : Heap) (x : loc) (l : list loc) : nat :=
  List.length (filter (py_eq h x) l).

(** Ascending order of rating, the order [sorted] produces. *)
Definition mmr_le (h : Heap) (a b : loc) : Prop := mmr (h a) <= mmr (h b).

Definition ratings (h : Heap) (l : list loc) : list Z :=
  map (fun p => mmr (h p)) l.

(** Largest and smallest rating of a window (0 for the empty one). *)
Definition max_rating (h : Heap) (l : list loc) : Z :=
  match ratings h l with
  | [] => 0
  | r :: rs => fold_left Z.max rs r
  end.

Definition min_rating (h : Heap) (l : list loc) : Z :=
  match ratings h l with
  | [] => 0
  | r :: rs => fold_left Z.min rs r
  end.

(** The window of [2 * team_size] consecutive players starting at rank [i]. *)
Definition window (team_size : Z) (sorted_players : list loc) (i : nat) : list loc :=
  firstn (Z.to_nat (team_size * 2)) (skipn i sorted_players).

(** spread = max rating - min rating; wait = now - earliest enqueue reading;
    allowed = base_range + wait * range_expansion; accepted iff
    spread <= allowed. *)
Definition spec_spread (h : Heap) (win : list loc) : Z :=
  max_rating h win - min_rating h win.

Definition spec_allowed (self : Matchmaker) (now earliest : Q) : Q :=
  (inject_Z (base_range self) + (now - earliest) * inject_Z (range_expansion self))%Q.

Definition spec_accepted (h : Heap) (self : Matchmaker) (now : Q) (win : list loc) : bool :=
  match min_queue_time h win with
  | Some earliest => Qle_bool (inject_Z (spec_spread h win)) (spec_allowed self now earliest)
  | None => false
  end.

(** Rank at which the last window starts. *)
Definition last_start (self : Matchmaker) (team_size : Z) : nat :=
  (List.length (queue self) - Z.to_nat (team_size * 2))%nat.

(** The window that starts at rank [i] of the sorted queue, and its test at
    the reading of iteration [i]. *)
Definition nth_window (h : Heap) (self : Matchmaker) (team_size : Z) (i : nat) : list loc :=
  window team_size (sorted_by_mmr h (queue self)) i.

Definition accepted_at (clock : Z -> Q) (h : Heap) (self : Matchmaker)
           (team_size : Z) (i : nat) : bool :=
  spec_accepted h self (clock (Z.of_nat i)) (nth_window h self team_size i).

(** The identities of the queued players, and the queue invariant that no
    identity is queued twice. *)
Definition ids (h : Heap) (l : list loc) : list string :=
  map (fun p => id (h p)) l.

Definition distinct_ids (h : Heap) (l : list loc) : Prop := NoDup (ids h l).

(** ** Concrete stores and queues for the examples *)

(** Object [l] is the player named by the [l]-th capital letter, rated
    [ratings[l]] and enqueued at [t]. *)
Definition ratings_heap (ratings : list Z) (t : Q) : Heap :=
  fun l => mkPlayer (String (Ascii.ascii_of_nat (65 + l)) EmptyString)
                    (nth l ratings 0) t.

Definition six_ratings : list Z := [1000; 1010; 1020; 1030; 1040; 1050].

Definition mm6 (base : Z) : Matchmaker := mkMatchmaker [0; 1; 2; 3; 4; 5]%nat base 0.

Definition at_noon : Z -> Q := fun _ => (12 # 1)%Q.

Definition solo : Heap := ratings_heap [1500] 0.

Definition empty_mm : Matchmaker := mkMatchmaker [] 100 10.

(** The same object queued three times, through [add_to_queue]. *)
Definition thrice : Heap * Matchmaker :=
  let '(h1, s1) := add_to_queue (1 # 1) solo empty_mm 0%nat in
  let '(h2, s2) := add_to_queue (2 # 1) h1 s1 0%nat in
  add_to_queue (3 # 1) h2 s2 0%nat.

(** ** Matchmaker.__init__ and sequences of calls *)

(** [Matchmaker(base_range, range_expansion)]: an empty queue and the two
    tolerance parameters; [Matchmaker()] takes the defaults 100 and 10. *)
Definition new_matchmaker (base_range range_expansion : Z) : Matchmaker :=
  mkMatchmaker [] base_range range_expansion.

Definition default_matchmaker : Matchmaker := new_matchmaker 100 10.

(** A run of [add_to_queue] calls, each with the clock reading it sees. *)
Fixpoint add_all (adds : list (Q * loc)) (st : Heap * Matchmaker) : Heap * Matchmaker :=
  match adds with
  | [] => st
  | (now, player) :: rest => add_all rest (add_to_queue now (fst st) (snd st) player)
  end.

(** The players of a match, team1 before team2. *)
Definition matched (m : Match) : list loc := team1 m ++ team2 m.

(** [l1] is [l2] with some elements dropped, the others in their order. *)
Inductive Subseq {A : Type} : list A -> list A -> Prop :=
| Subseq_nil : Subseq [] []
| Subseq_drop (x : A) (l1 l2 : list A) : Subseq l1 l2 -> Subseq l1 (x :: l2)
| Subseq_keep (x : A) (l1 l2 : list A) : Subseq l1 l2 -> Subseq (x :: l1) (x :: l2).

(** Every queued player was enqueued no later than [t]. *)
Definition enqueued_by (h : Heap) (q : list loc) (t : Q) : Prop :=
  forall p, In p q -> (queue_time (h p) <= t)%Q.

(** ** Lines 46-47 in binary64 *)

(** A double: a finite one is the rational it denotes. *)
Inductive f64 := Fin (q : Q) | PInf | NInf | NaN.

(** Nearest integer, ties to the even one. *)
Definition round_half_even (q : Q) : Z :=
  let f := Qfloor q in
  match Qcompare (q - inject_Z f) (1 # 2) with
  | Lt => f
  | Gt => f + 1
  | Eq => if Z.even f then f else f + 1
  end.

(** The binary exponent of a positive rational: floor of its log2. *)
Definition ilog2 (q : Q) : Z :=
  let e := Z.log2 (Qnum q) - Z.log2 (Zpos (Qden q)) in
  if Qle_bool (Qpower 2 e) q then e else e - 1.

(** Rounding of an exact result to binary64: 53 significant bits, least
    exponent -1022 (subnormals below), overflow from 2^1024. *)
Definition round64 (q : Q) : f64 :=
  if Qeq_bool q 0 then Fin 0
  else
    let a := Qabs q in
    let ulp := Qpower 2 (Z.max (ilog2 a) (-1022) - 52) in
    let r := Qred (inject_Z (round_half_even (a / ulp)) * ulp) in
    if Qle_bool (Qpower 2 1024) r then (if 0 <? Qnum q then PInf else NInf)
    else Fin (if 0 <? Qnum q then r else Qopp r).

(** Conversion of an [int] operand; [None] stands for OverflowError. *)
Definition f64_of_int (z : Z) : option Q :=
  match round64 (inject_Z z) with
  | Fin q => Some q
  | _ => None
  end.

(** float - float, float * float and float + float on the operands that
    occur: two finite readings; a product by a converted int; a converted
    int plus that product. *)
Definition f64_sub (a b : Q) : f64 := round64 (a - b).

Definition f64_mul (w : f64) (x : Q) : f64 :=
  match w with
  | Fin a => round64 (a * x)
  | PInf => if Qeq_bool x 0 then NaN else if 0 <? Qnum x then PInf else NInf
  | NInf => if Qeq_bool x 0 then NaN else if 0 <? Qnum x then NInf else PInf
  | NaN => NaN
  end.

Definition f64_add (b : Q) (p : f64) : f64 :=
  match p with
  | Fin a => round64 (b + a)
  | PInf => PInf
  | NInf => NInf
  | NaN => NaN
  end.

(** [int <= float], which Python decides on the exact values. *)
Definition int_le_f64 (z : Z) (x : f64) : bool :=
  match x with
  | Fin q => Qle_bool (inject_Z z) q
  | PInf => true
  | NInf => false
  | NaN => false
  end.

(** What lines 46-49 decide for one window. *)
Inductive verdict := Accept | Reject | Overflow.

Definition tolerance64 (self : Matchmaker) (mmr_range : Z) (now earliest : Q) : verdict :=
  let wait_time := f64_sub now earliest in
  match f64_of_int (range_expansion self) with
  | None => Overflow
  | Some expansion =>
      let grown := f64_mul wait_time expansion in
      match f64_of_int (base_range self) with
      | None => Overflow
      | Some base =>
          let allowed_range := f64_add base grown in
          if int_le_f64 mmr_range allowed_range then Accept else Reject
      end
  end.

(** The same decision in exact arithmetic, as [within_range] takes it. *)
Definition exact_tolerance (self : Matchmaker) (mmr_range : Z) (now earliest : Q) : verdict :=
  if within_range self mmr_range now earliest then Accept else Reject.

(** One iteration and the whole search, for a given way of deciding. *)
Definition window_step_by (tol : Matchmaker -> Z -> Q -> Q -> verdict)
           (clock : Z -> Q) (h : Heap) (self : Matchmaker)
           (team_size : Z) (sorted_players : list loc) (i : Z) : step :=
  let candidates := py_slice sorted_players i (i + team_size * 2) in
  match py_last candidates, py_first candidates with
  | Some hi, Some lo =>
      let mmr_range := mmr (h hi) - mmr (h lo) in
      let now := clock i in
      match min_queue_time h candidates with
      | None => Done (Raised ValueError) self
      | Some earliest =>
          match tol self mmr_range now earliest with
          | Overflow => Done (Raised OverflowError) self
          | Reject => Continue
          | Accept =>
              match remove_candidates h candidates (queue self) with
              | (Some e, q') => Done (Raised e) (set_queue self q')
              | (None, q') =>
                  Done (Returned (Some (build_match h candidates))) (set_queue self q')
              end
          end
      end
  | _, _ => Done (Raised IndexError) self
  end.

Definition find_match_by (tol : Matchmaker -> Z -> Q -> Q -> verdict)
           (clock : Z -> Q) (h : Heap) (self : Matchmaker) (team_size : Z)
  : outcome * Matchmaker :=
  if Z.of_nat (length (queue self)) <? team_size * 2 then (Returned None, self)
  else
    let sorted_players := sorted_by_mmr h (queue self) in
    scan (window_step_by tol clock h self team_size sorted_players) self
         (py_range (Z.of_nat (length sorted_players) - team_size * 2 + 1)).

(** [Matchmaker.find_match] as Python runs it. *)
Definition find_match64 : (Z -> Q) -> Heap -> Matchmaker -> Z -> outcome * Matchmaker :=
  find_match_by tolerance64.

(** The decision taken for the window that starts at rank [i]. *)
Definition verdict_at (tol : Matchmaker -> Z -> Q -> Q -> verdict)
           (clock : Z -> Q) (h : Heap) (self : Matchmaker) (team_size : Z) (i : nat)
  : verdict :=
  match min_queue_time h (nth_window h self team_size i) with
  | Some earliest =>
      tol self (spec_spread h (nth_window h self team_size i)) (clock (Z.of_nat i)) earliest
  | None => Reject
  end.

Definition accepted64_at (clock : Z -> Q) (h : Heap) (self : Matchmaker)
           (team_size : Z) (i : nat) : bool :=
  match verdict_at tolerance64 clock h self team_size i with
  | Accept => true
  | _ => false
  end.

(** Ratings 0 and 2^53+1: the spread equals a base_range that binary64
    rounds down. *)
Definition far_apart : Heap := ratings_heap [0; 2 ^ 53 + 1] (12 # 1).

(** ** Sanity checks of the embedding *)

Example slice_negative_stop : py_slice [10; 20; 30] 0 (0 + -1 * 2) = [10].
Proof. reflexivity. Qed.

Example slice_past_end : py_slice [10; 20; 30] 2 (2 + 2 * 2) = [30].
Proof. reflexivity. Qed.

Example range_negative : py_range (-3) = [].
Proof. reflexivity. Qed.

Example alternate_split : evens [0; 1; 2; 3; 4]%nat = [0; 2; 4]%nat
                          /\ odds [0; 1; 2; 3; 4]%nat = [1; 3]%nat.
Proof. split; reflexivity. Qed.

Example sort_is_stable :
  sorted_by_mmr (ratings_heap [7; 5; 7; 5] 0) [0; 1; 2; 3]%nat = [1; 3; 0; 2]%nat.
Proof. reflexivity. Qed.

Example shuffled_queue :
  find_match at_noon (ratings_heap six_ratings (12 # 1))
             (mkMatchmaker [3; 0; 5; 1; 4; 2]%nat 50 0) 3
  = (Returned (Some (mkMatch [0; 2; 4]%nat [1; 3; 5]%nat 1025)), mkMatchmaker [] 50 0).
Proof. vm_compute. reflexivity. Qed.

Example round64_ties_to_even :
  round64 (inject_Z (2 ^ 53 + 1)) = Fin (inject_Z (2 ^ 53))
  /\ round64 (inject_Z (2 ^ 53 + 3)) = Fin (inject_Z (2 ^ 53 + 4)).
Proof. split; vm_compute; reflexivity. Qed.

Example round64_absorbs : round64 (inject_Z (10 ^ 16) - 1) = Fin (inject_Z (10 ^ 16)).
Proof. vm_compute. reflexivity. Qed.

Example round64_one_tenth : round64 (1 # 10) = Fin (3602879701896397 # 36028797018963968).
Proof. vm_compute. reflexivity. Qed.

Example round64_underflows : round64 (Qpower 2 (-1080)) = Fin 0.
Proof. vm_compute. reflexivity. Qed.

Example of_int_overflows :
  f64_of_int (10 ^ 400) = None
  /\ f64_of_int (2 ^ 1024 - 2 ^ 970) = None
  /\ f64_of_int (2 ^ 1024 - 2 ^ 970 - 1) = Some (inject_Z (2 ^ 1024 - 2 ^ 971)).
Proof. repeat split; vm_compute; reflexivity. Qed.

Example binary64_accepts_after_rounding_up :
  spec_accepted (ratings_heap [0; 101] 0) (mkMatchmaker [0; 1]%nat 100 1)
                (1 - Qpower 2 (-53)) [0; 1]%nat = false
  /\ find_match64 (fun _ => 1 - Qpower 2 (-53))%Q (ratings_heap [0; 101] 0)
                  (mkMatchmaker [0; 1]%nat 100 1) 1
     = (Returned (Some (mkMatch [0]%nat [1]%nat 50)), mkMatchmaker [] 100 1).
Proof. split; vm_compute; reflexivity. Qed.

Example binary64_wait_absorbs_one_second :
  spec_accepted (ratings_heap [0; 10 ^ 16] 1) (mkMatchmaker [0; 1]%nat 0 1)
                (inject_Z (10 ^ 16)) [0; 1]%nat = false
  /\ find_match64 (fun _ => inject_Z (10 ^ 16)) (ratings_heap [0; 10 ^ 16] 1)
                  (mkMatchmaker [0; 1]%nat 0 1) 1
     = (Returned (Some (mkMatch [0]%nat [1]%nat (5 * 10 ^ 15))), mkMatchmaker [] 0 1).
Proof. split; vm_compute; reflexivity. Qed.

Example aliases_share_the_reading :
  queue_time (fst thrice 0%nat) = (3 # 1)%Q /\ queue (snd thrice) = [0; 0; 0]%nat.
Proof. split; reflexivity. Qed.

(** ** Equality used by [list.remove] *)

Lemma Player_eqb_refl (a : Player) : Player_eqb a a = true.
Proof.
  unfold Player_eqb.
  rewrite String.eqb_refl, Z.eqb_refl. simpl.
  apply Qeq_bool_iff. reflexivity.
Qed.

Lemma Player_eqb_sym (a b : Player) : Player_eqb a b = Player_eqb b a.
Proof.
  unfold Player_eqb.
  rewrite (String.eqb_sym (id a)), (Z.eqb_sym (mmr a)).
  f_equal.
  destruct (Qeq_bool (queue_time a) (queue_time b)) eqn:E1,
           (Qeq_bool (queue_time b) (queue_time a)) eqn:E2; auto.
  - apply Qeq_bool_iff in E1. symmetry in E1. apply Qeq_bool_iff in E1. congruence.
  - apply Qeq_bool_iff in E2. symmetry in E2. apply Qeq_bool_iff in E2. congruence.
Qed.

Lemma Player_eqb_trans (a b c : Player) :
  Player_eqb a b = true -> Player_eqb b c = true -> Player_eqb a c = true.
Proof.
  unfold Player_eqb. intros H1 H2.
  apply andb_prop in H1 as [H1 Hq1]. apply andb_prop in H1 as [Hi1 Hm1].
  apply andb_prop in H2 as [H2 Hq2]. apply andb_prop in H2 as [Hi2 Hm2].
  apply String.eqb_eq in Hi1, Hi2. apply Z.eqb_eq in Hm1, Hm2.
  apply Qeq_bool_iff in Hq1, Hq2.
  rewrite Hi1, Hi2, Hm1, Hm2, String.eqb_refl, Z.eqb_refl. simpl.
  apply Qeq_bool_iff. now rewrite Hq1.
Qed.

Section Removal.

Variable h : Heap.

Lemma py_eq_Player_eqb (x y : loc) :
  py_eq h x y = Player_eqb (h x) (h y).
Proof.
  unfold py_eq. destruct (Nat.eqb x y) eqn:E; simpl; auto.
  apply Nat.eqb_eq in E. subst. now rewrite Player_eqb_refl.
Qed.

Lemma py_eq_refl (x : loc) : py_eq h x x = true.
Proof. rewrite py_eq_Player_eqb. apply Player_eqb_refl. Qed.

Lemma py_eq_sym (x y : loc) : py_eq h x y = py_eq h y x.
Proof. rewrite !py_eq_Player_eqb. apply Player_eqb_sym. Qed.

Lemma py_eq_trans (x y z : loc) :
  py_eq h x y = true -> py_eq h y z = true -> py_eq h x z = true.
Proof. rewrite !py_eq_Player_eqb. apply Player_eqb_trans. Qed.

(** Equal players answer every equality test alike. *)
Lemma py_eq_congr (x y z : loc) :
  py_eq h y z = true -> py_eq h x y = py_eq h x z.
Proof.
  intros Hyz.
  destruct (py_eq h x y) eqn:E1, (py_eq h x z) eqn:E2; auto.
  - rewrite (py_eq_trans x y z E1 Hyz) in E2. discriminate.
  - rewrite py_eq_sym in Hyz.
    rewrite (py_eq_trans x z y E2 Hyz) in E1. discriminate.
Qed.


(** ** Counting the elements equal to a player *)

Lemma count_eq_cons (x y : loc) (l : list loc) :
  count_eq h x (y :: l) = ((if py_eq h x y then 1 else 0) + count_eq h x l)%nat.
Proof. unfold count_eq. simpl. now destruct (py_eq h x y). Qed.

Lemma count_eq_app (x : loc) (l1 l2 : list loc) :
  count_eq h x (l1 ++ l2) = (count_eq h x l1 + count_eq h x l2)%nat.
Proof. unfold count_eq. now rewrite filter_app, length_app. Qed.

Lemma count_eq_perm (x : loc) (l1 l2 : list loc) :
  Permutation l1 l2 -> count_eq h x l1 = count_eq h x l2.
Proof.
  induction 1; rewrite ?count_eq_cons; lia.
Qed.

Lemma count_eq_window (x : loc) (l : list loc) (k n : nat) :
  (count_eq h x (firstn n (skipn k l)) <= count_eq h x l)%nat.
Proof.
  rewrite <- (firstn_skipn k l) at 2.
  rewrite <- (firstn_skipn n (skipn k l)) at 2.
  rewrite !count_eq_app. lia.
Qed.

Lemma py_remove_count (p : loc) (l l' : list loc) :
  py_remove h p l = Some l' ->
  forall x, count_eq h x l = ((if py_eq h x p then 1 else 0) + count_eq h x l')%nat.
Proof.
  revert l'. induction l as [|y tl IH]; simpl; intros l' H x; [discriminate|].
  destruct (py_eq h y p) eqn:E.
  - injection H as <-. rewrite count_eq_cons.
    now rewrite (py_eq_congr x y p E).
  - destruct (py_remove h p tl) as [tl'|]; [|discriminate].
    injection H as <-. rewrite !count_eq_cons, (IH tl' eq_refl x). lia.
Qed.

Lemma py_remove_present (p : loc) (l : list loc) :
  (0 < count_eq h p l)%nat -> exists l', py_remove h p l = Some l'.
Proof.
  induction l as [|y tl IH]; simpl; intros H.
  - unfold count_eq in H. simpl in H. lia.
  - destruct (py_eq h y p) eqn:E; [eauto|].
    rewrite count_eq_cons, py_eq_sym, E in H.
    destruct (IH H) as [tl' ->]. eauto.
Qed.

(** Removing the candidates one by one never raises when every player
    occurs in the queue at least as often as among the candidates. *)
Lemma remove_candidates_total (candidates : list loc) :
  forall q,
    (forall x, (count_eq h x candidates <= count_eq h x q)%nat) ->
    exists q', remove_candidates h candidates q = (None, q').
Proof.
  induction candidates as [|p rest IH]; simpl; intros q Hc; [eauto|].
  destruct (py_remove_present p q) as [q1 Hq1].
  { specialize (Hc p). rewrite count_eq_cons, py_eq_refl in Hc. lia. }
  rewrite Hq1. apply IH. intros x.
  specialize (Hc x). rewrite count_eq_cons in Hc.
  rewrite (py_remove_count p q q1 Hq1 x) in Hc. lia.
Qed.

End Removal.

(** ** Sorting by rating *)

Lemma insert_by_mmr_perm (h : Heap) (p : loc) (l : list loc) :
  Permutation (insert_by_mmr h p l) (p :: l).
Proof.
  induction l as [|x tl IH]; simpl; [reflexivity|].
  destruct (mmr (h p) <=? mmr (h x)); [reflexivity|].
  rewrite IH. apply perm_swap.
Qed.

Lemma sorted_by_mmr_perm (h : Heap) (l : list loc) :
  Permutation (sorted_by_mmr h l) l.
Proof.
  induction l as [|x tl IH]; simpl; [constructor|].
  rewrite insert_by_mmr_perm. now constructor.
Qed.

Lemma sorted_by_mmr_length (h : Heap) (l : list loc) :
  List.length (sorted_by_mmr h l) = List.length l.
Proof. apply Permutation_length, sorted_by_mmr_perm. Qed.

Lemma insert_by_mmr_sorted (h : Heap) (p : loc) (l : list loc) :
  StronglySorted (mmr_le h) l -> StronglySorted (mmr_le h) (insert_by_mmr h p l).
Proof.
  induction 1 as [|x tl Hs IH Hx]; simpl.
  - repeat constructor.
  - destruct (mmr (h p) <=? mmr (h x)) eqn:E.
    + apply Z.leb_le in E. constructor; [now constructor|].
      constructor; [exact E|].
      eapply Forall_impl; [|exact Hx]. unfold mmr_le. intros; lia.
    + apply Z.leb_gt in E. constructor; [exact IH|].
      rewrite (Forall_forall (mmr_le h x)). intros y Hy.
      apply (Permutation_in _ (insert_by_mmr_perm h p tl)) in Hy.
      destruct Hy as [<-|Hy]; [unfold mmr_le; lia|].
      rewrite Forall_forall in Hx. now apply Hx.
Qed.

Lemma sorted_by_mmr_sorted (h : Heap) (l : list loc) :
  StronglySorted (mmr_le h) (sorted_by_mmr h l).
Proof.
  induction l as [|x tl IH]; simpl; [constructor|].
  now apply insert_by_mmr_sorted.
Qed.

Lemma StronglySorted_skipn {A} (R : A -> A -> Prop) (l : list A) (k : nat) :
  StronglySorted R l -> StronglySorted R (skipn k l).
Proof.
  revert l. induction k as [|k IH]; intros l Hs; [exact Hs|].
  destruct l as [|x tl]; [constructor|]. simpl.
  apply IH. now inversion Hs.
Qed.

Lemma StronglySorted_firstn {A} (R : A -> A -> Prop) (l : list A) (n : nat) :
  StronglySorted R l -> StronglySorted R (firstn n l).
Proof.
  revert l. induction n as [|n IH]; intros l Hs; [constructor|].
  destruct l as [|x tl]; [constructor|]. simpl.
  inversion Hs as [|? ? Hs' Hx]; subst.
  constructor; [now apply IH|].
  rewrite Forall_forall in *. intros y Hy. apply Hx.
  rewrite <- (firstn_skipn n tl). apply in_or_app. now left.
Qed.

(** ** Slices and ranges *)

Lemma py_slice_window {A} (l : list A) (i n : Z) :
  0 <= i -> 0 < n -> i + n <= Z.of_nat (List.length l) ->
  py_slice l i (i + n) = firstn (Z.to_nat n) (skipn (Z.to_nat i) l).
Proof.
  intros Hi Hn Hlen. unfold py_slice, py_clamp.
  destruct (i <? 0) eqn:E1; [apply Z.ltb_lt in E1; lia|].
  destruct (i + n <? 0) eqn:E2; [apply Z.ltb_lt in E2; lia|].
  rewrite !Z.min_l by lia. f_equal. f_equal. lia.
Qed.


Lemma window_length {A} (l : list A) (k n : nat) :
  (k + n <= List.length l)%nat -> List.length (firstn n (skipn k l)) = n.
Proof. intros H. rewrite length_firstn, length_skipn. lia. Qed.


(** ** Spread and earliest reading of a sorted window *)

Lemma fold_min_sorted (r : Z) (rs : list Z) :
  Forall (fun x => r <= x) rs -> fold_left Z.min rs r = r.
Proof.
  induction 1 as [|x tl Hx _ IH]; simpl; [reflexivity|].
  now rewrite Z.min_l.
Qed.

Lemma min_rating_sorted (h : Heap) (x : loc) (l : list loc) :
  StronglySorted (mmr_le h) (x :: l) -> min_rating h (x :: l) = mmr (h x).
Proof.
  intros Hs. inversion Hs as [|? ? _ Hx]; subst.
  unfold min_rating. simpl. apply fold_min_sorted.
  unfold ratings. rewrite Forall_map. exact Hx.
Qed.

Lemma max_rating_sorted (h : Heap) (l : list loc) :
  forall x hi,
    StronglySorted (mmr_le h) (x :: l) -> py_last (x :: l) = Some hi ->
    max_rating h (x :: l) = mmr (h hi).
Proof.
  unfold max_rating. simpl.
  induction l as [|y tl IH]; intros x hi Hs Hl.
  - simpl in *. congruence.
  - inversion Hs as [|? ? Hs' Hx]; subst.
    inversion Hx as [|? ? Hxy _]; subst. unfold mmr_le in Hxy.
    simpl. rewrite Z.max_r by exact Hxy.
    apply IH; [exact Hs'|exact Hl].
Qed.

Lemma py_last_nonempty {A} (x : A) (l : list A) : exists y, py_last (x :: l) = Some y.
Proof.
  revert x. induction l as [|y tl IH]; intros x; [now exists x|].
  destruct (IH y) as [z Hz]. exists z. exact Hz.
Qed.

(** On a rating-sorted window the code's [candidates[-1].mmr -
    candidates[0].mmr] is the spread. *)
Lemma spread_of_sorted (h : Heap) (win : list loc) (hi lo : loc) :
  StronglySorted (mmr_le h) win ->
  py_last win = Some hi -> py_first win = Some lo ->
  mmr (h hi) - mmr (h lo) = spec_spread h win.
Proof.
  intros Hs Hl Hf. destruct win as [|x tl]; [discriminate|].
  simpl in Hf. injection Hf as ->.
  unfold spec_spread.
  now rewrite (max_rating_sorted h tl lo hi Hs Hl), (min_rating_sorted h lo tl Hs).
Qed.

(** The earliest reading belongs to the window and bounds it from below. *)
Lemma min_from_le (l : list Q) (cur : Q) :
  (min_from cur l <= cur)%Q /\ Forall (fun x => (min_from cur l <= x)%Q) l.
Proof.
  revert cur. induction l as [|x tl IH]; intros cur; simpl.
  - split; [apply Qle_refl|constructor].
  - unfold Qlt_bool. destruct (Qle_bool cur x) eqn:E; simpl.
    + apply Qle_bool_iff in E. destruct (IH cur) as [H1 H2].
      split; [exact H1|]. constructor; [|exact H2].
      eapply Qle_trans; eauto.
    + assert (x < cur)%Q as Hlt.
      { apply Qnot_le_lt. intros Hc. apply Qle_bool_iff in Hc. congruence. }
      destruct (IH x) as [H1 H2].
      split; [|constructor; assumption].
      eapply Qle_trans; [exact H1|]. now apply Qlt_le_weak.
Qed.

Lemma min_from_in (l : list Q) (cur : Q) :
  In (min_from cur l) (cur :: l).
Proof.
  revert cur. induction l as [|x tl IH]; intros cur; simpl; [now left|].
  destruct (IH (if Qlt_bool x cur then x else cur)) as [H|H].
  - destruct (Qlt_bool x cur); [right; left|left]; exact H.
  - right; right; exact H.
Qed.

Lemma min_queue_time_least (h : Heap) (win : list loc) (e : Q) :
  min_queue_time h win = Some e ->
  In e (map (fun p => queue_time (h p)) win) /\
  forall p, In p win -> (e <= queue_time (h p))%Q.
Proof.
  destruct win as [|x tl]; simpl; [discriminate|].
  intros H. injection H as <-.
  set (qs := map (fun q => queue_time (h q)) tl).
  destruct (min_from_le qs (queue_time (h x))) as [H1 H2].
  split.
  - destruct (min_from_in qs (queue_time (h x))) as [H|H]; auto.
  - intros p [<-|Hp]; [exact H1|].
    rewrite Forall_forall in H2. apply H2. unfold qs.
    now apply (in_map (fun q => queue_time (h q))).
Qed.

(** ** The loop *)

Lemma scan_all_continue (body : Z -> step) (self : Matchmaker) (indices : list Z) :
  (forall j, In j indices -> body j = Continue) ->
  scan body self indices = (Returned None, self).
Proof.
  induction indices as [|i rest IH]; simpl; intros H; [reflexivity|].
  rewrite (H i) by now left. apply IH. intros j Hj. apply H. now right.
Qed.

Lemma scan_first_done (body : Z -> step) (self : Matchmaker)
      (pre post : list Z) (i : Z) (o : outcome) (self' : Matchmaker) :
  (forall j, In j pre -> body j = Continue) ->
  body i = Done o self' ->
  scan body self (pre ++ i :: post) = (o, self').
Proof.
  induction pre as [|j rest IH]; simpl; intros H Hi.
  - now rewrite Hi.
  - rewrite (H j) by now left. apply IH; [|exact Hi].
    intros k Hk. apply H. now right.
Qed.

Lemma scan_inv (body : Z -> step) (self : Matchmaker) (indices : list Z)
      (o : outcome) (self' : Matchmaker) :
  scan body self indices = (o, self') ->
  (o = Returned None /\ self' = self /\ forall j, In j indices -> body j = Continue)
  \/ exists pre i post,
       indices = pre ++ i :: post /\
       (forall j, In j pre -> body j = Continue) /\ body i = Done o self'.
Proof.
  induction indices as [|i rest IH]; simpl; intros H.
  - injection H as <- <-. left. repeat split. intros j [].
  - destruct (body i) as [|o1 s1] eqn:E.
    + destruct (IH H) as [(Ho & Hs & Hall)|(pre & k & post & Heq & Hpre & Hk)].
      * left. repeat split; auto. intros j [<-|Hj]; auto.
      * right. exists (i :: pre), k, post. subst. repeat split; auto.
        intros j [<-|Hj]; auto.
    + injection H as <- <-. right. exists [], i, rest. repeat split; auto.
      intros j [].
Qed.

Lemma py_range_split (n i : nat) :
  (i < n)%nat ->
  py_range (Z.of_nat n) =
  map Z.of_nat (seq 0 i) ++ Z.of_nat i :: map Z.of_nat (seq (S i) (n - S i)).
Proof.
  intros H. unfold py_range. rewrite Nat2Z.id.
  replace n with (i + S (n - S i))%nat at 1 by lia.
  rewrite seq_app, map_app. reflexivity.
Qed.

Lemma in_py_range (n : Z) (j : Z) :
  In j (py_range n) <-> 0 <= j < n.
Proof.
  unfold py_range. rewrite in_map_iff. split.
  - intros (k & <- & Hk). apply in_seq in Hk. lia.
  - intros H. exists (Z.to_nat j). split; [lia|]. apply in_seq. lia.
Qed.

(** Candidates drawn from the sorted queue can always be removed. *)
Lemma remove_window_total (h : Heap) (q : list loc) (k n : nat) :
  exists q', remove_candidates h (firstn n (skipn k (sorted_by_mmr h q))) q = (None, q').
Proof.
  apply remove_candidates_total. intros x.
  rewrite <- (count_eq_perm h x _ _ (sorted_by_mmr_perm h q)).
  apply count_eq_window.
Qed.

Lemma min_queue_time_nonempty (h : Heap) (x : loc) (l : list loc) :
  exists e, min_queue_time h (x :: l) = Some e.
Proof. simpl. eauto. Qed.

(** What one iteration does on a window that lies inside the sorted queue. *)
Lemma window_step_inside (clock : Z -> Q) (h : Heap) (self : Matchmaker)
      (team_size : Z) (i : nat) :
  0 < team_size ->
  Z.of_nat i + team_size * 2 <= Z.of_nat (List.length (queue self)) ->
  let win := window team_size (sorted_by_mmr h (queue self)) i in
  exists q',
    remove_candidates h win (queue self) = (None, q') /\
    window_step clock h self team_size (sorted_by_mmr h (queue self)) (Z.of_nat i) =
    if spec_accepted h self (clock (Z.of_nat i)) win
    then Done (Returned (Some (build_match h win))) (set_queue self q')
    else Continue.
Proof.
  intros Hts Hlen win.
  destruct (remove_window_total h (queue self) i (Z.to_nat (team_size * 2))) as [q' Hq'].
  exists q'. split; [exact Hq'|].
  unfold window_step.
  rewrite py_slice_window by (rewrite ?sorted_by_mmr_length; lia).
  rewrite Nat2Z.id. fold (window team_size (sorted_by_mmr h (queue self)) i). fold win.
  assert (List.length win = Z.to_nat (team_size * 2)) as Hwl.
  { unfold win, window. apply window_length. rewrite sorted_by_mmr_length. lia. }
  assert (StronglySorted (mmr_le h) win) as Hs.
  { unfold win, window. apply StronglySorted_firstn, StronglySorted_skipn,
      sorted_by_mmr_sorted. }
  change (remove_candidates h win (queue self) = (None, q')) in Hq'.
  clearbody win.
  destruct win as [|x tl]; [simpl in Hwl; lia|].
  destruct (py_last_nonempty x tl) as [hi Hhi]. rewrite Hhi.
  cbn [py_first].
  rewrite (spread_of_sorted h (x :: tl) hi x Hs Hhi eq_refl).
  unfold spec_accepted.
  destruct (min_queue_time_nonempty h x tl) as [e He]. rewrite He.
  unfold within_range, allowed_range, spec_allowed.
  destruct (Qle_bool _ _); [|reflexivity].
  now rewrite Hq'.
Qed.

(** ** find_match on a queue that is long enough *)

Lemma find_match_unfold (clock : Z -> Q) (h : Heap) (self : Matchmaker) (team_size : Z) :
  0 < team_size ->
  team_size * 2 <= Z.of_nat (List.length (queue self)) ->
  find_match clock h self team_size =
  scan (window_step clock h self team_size (sorted_by_mmr h (queue self))) self
       (py_range (Z.of_nat (S (last_start self team_size)))).
Proof.
  intros Hts Hlen. unfold find_match.
  destruct (_ <? _) eqn:E; [apply Z.ltb_lt in E; lia|].
  rewrite sorted_by_mmr_length. f_equal. f_equal. unfold last_start. lia.
Qed.

Lemma window_step_at (clock : Z -> Q) (h : Heap) (self : Matchmaker)
      (team_size : Z) (i : nat) :
  0 < team_size ->
  team_size * 2 <= Z.of_nat (List.length (queue self)) ->
  (i <= last_start self team_size)%nat ->
  exists q',
    remove_candidates h (nth_window h self team_size i) (queue self) = (None, q') /\
    window_step clock h self team_size (sorted_by_mmr h (queue self)) (Z.of_nat i) =
    if accepted_at clock h self team_size i
    then Done (Returned (Some (build_match h (nth_window h self team_size i))))
              (set_queue self q')
    else Continue.
Proof.
  intros Hts Hlen Hi. apply window_step_inside; [exact Hts|].
  unfold last_start in Hi. lia.
Qed.

Lemma find_match_none (clock : Z -> Q) (h : Heap) (self : Matchmaker) (team_size : Z) :
  0 < team_size ->
  team_size * 2 <= Z.of_nat (List.length (queue self)) ->
  (forall i, (i <= last_start self team_size)%nat ->
             accepted_at clock h self team_size i = false) ->
  find_match clock h self team_size = (Returned None, self).
Proof.
  intros Hts Hlen Hrej. rewrite find_match_unfold by assumption.
  apply scan_all_continue. intros j Hj. apply in_py_range in Hj.
  destruct (window_step_at clock h self team_size (Z.to_nat j) Hts Hlen) as (q' & _ & Hstep);
    [lia|].
  rewrite Z2Nat.id in Hstep by lia. rewrite Hstep, Hrej; [reflexivity|lia].
Qed.

Lemma find_match_first (clock : Z -> Q) (h : Heap) (self : Matchmaker)
      (team_size : Z) (i : nat) :
  0 < team_size ->
  team_size * 2 <= Z.of_nat (List.length (queue self)) ->
  (i <= last_start self team_size)%nat ->
  accepted_at clock h self team_size i = true ->
  (forall j, (j < i)%nat -> accepted_at clock h self team_size j = false) ->
  exists q',
    remove_candidates h (nth_window h self team_size i) (queue self) = (None, q') /\
    find_match clock h self team_size =
    (Returned (Some (build_match h (nth_window h self team_size i))), set_queue self q').
Proof.
  intros Hts Hlen Hi Hacc Hrej. rewrite find_match_unfold by assumption.
  destruct (window_step_at clock h self team_size i Hts Hlen Hi) as (q' & Hq' & Hstep).
  exists q'. split; [exact Hq'|].
  rewrite (py_range_split (S (last_start self team_size)) i) by lia.
  apply scan_first_done.
  - intros j Hj. apply in_map_iff in Hj as (k & <- & Hk). apply in_seq in Hk.
    destruct (window_step_at clock h self team_size k Hts Hlen) as (q1 & _ & Hk1); [lia|].
    rewrite Hk1, Hrej; [reflexivity|lia].
  - now rewrite Hstep, Hacc.
Qed.


(** ** Alternating split and sums *)

Lemma list_pair_ind {A} (P : list A -> Prop) :
  P [] -> (forall x, P [x]) -> (forall x y l, P l -> P (x :: y :: l)) ->
  forall l, P l.
Proof.
  intros H0 H1 H2.
  assert (forall l, P l /\ forall x, P (x :: l)) as H.
  { induction l as [|y tl [IH1 IH2]]; split; auto. }
  intros l. apply H.
Qed.

Lemma evens_cons2 {A} (x y : A) (l : list A) : evens (x :: y :: l) = x :: evens l.
Proof. reflexivity. Qed.

Lemma odds_cons2 {A} (x y : A) (l : list A) : odds (x :: y :: l) = y :: odds l.
Proof. unfold odds. simpl. destruct l; reflexivity. Qed.

Lemma evens_odds_perm {A} (l : list A) : Permutation (evens l ++ odds l) l.
Proof.
  induction l as [| x | x y l IH] using list_pair_ind; try reflexivity.
  rewrite evens_cons2, odds_cons2. simpl. constructor.
  rewrite <- Permutation_middle. now constructor.
Qed.

Lemma evens_odds_length {A} (l : list A) (n : nat) :
  List.length l = (2 * n)%nat ->
  List.length (evens l) = n /\ List.length (odds l) = n.
Proof.
  revert n. induction l as [| x | x y l IH] using list_pair_ind; intros n H.
  - simpl in *. split; lia.
  - simpl in H. lia.
  - rewrite evens_cons2, odds_cons2. simpl in *.
    destruct n as [|n]; [lia|]. destruct (IH n) as [H1 H2]; [lia|]. split; lia.
Qed.

Lemma evens_in {A} (l : list A) (x : A) : In x (evens l) -> In x l.
Proof.
  intros H. apply (Permutation_in x (evens_odds_perm l)), in_or_app. now left.
Qed.

Lemma odds_in {A} (l : list A) (x : A) : In x (odds l) -> In x l.
Proof.
  intros H. apply (Permutation_in x (evens_odds_perm l)), in_or_app. now right.
Qed.

Lemma evens_sorted {A} (R : A -> A -> Prop) (l : list A) :
  StronglySorted R l -> StronglySorted R (evens l).
Proof.
  induction l as [| x | x y l IH] using list_pair_ind; intros Hs; try exact Hs.
  rewrite evens_cons2.
  inversion Hs as [|? ? Hs1 Hx]; subst. inversion Hs1 as [|? ? Hs2 Hy]; subst.
  constructor; [now apply IH|].
  rewrite Forall_forall in *. intros z Hz. apply Hx. right. now apply evens_in.
Qed.

Lemma odds_sorted {A} (R : A -> A -> Prop) (l : list A) :
  StronglySorted R l -> StronglySorted R (odds l).
Proof.
  intros Hs. unfold odds. apply evens_sorted.
  destruct l; [constructor|]. now inversion Hs.
Qed.

(** In a sorted list of even length each even rank is below the odd rank
    that follows it. *)
Lemma evens_below_odds {A} (R : A -> A -> Prop) (l : list A) (n : nat) :
  StronglySorted R l -> List.length l = (2 * n)%nat ->
  Forall2 R (evens l) (odds l).
Proof.
  revert n. induction l as [| x | x y l IH] using list_pair_ind; intros n Hs Hlen.
  - constructor.
  - simpl in Hlen. lia.
  - rewrite evens_cons2, odds_cons2.
    inversion Hs as [|? ? Hs1 Hx]; subst. inversion Hs1 as [|? ? Hs2 Hy]; subst.
    constructor; [now inversion Hx|].
    apply (IH (pred n)); [exact Hs2|simpl in Hlen; lia].
Qed.

Lemma sum_mmr_from (h : Heap) (l : list loc) (a : Z) :
  fold_left (fun acc p => acc + mmr (h p)) l a = a + sum_mmr h l.
Proof.
  unfold sum_mmr. revert a. induction l as [|x tl IH]; intros a; simpl; [lia|].
  rewrite (IH (a + mmr (h x))), (IH (mmr (h x))). lia.
Qed.

Lemma sum_mmr_cons (h : Heap) (x : loc) (l : list loc) :
  sum_mmr h (x :: l) = mmr (h x) + sum_mmr h l.
Proof. unfold sum_mmr at 1. simpl. now rewrite sum_mmr_from. Qed.

Lemma sum_mmr_app (h : Heap) (l1 l2 : list loc) :
  sum_mmr h (l1 ++ l2) = sum_mmr h l1 + sum_mmr h l2.
Proof.
  induction l1 as [|x tl IH]; simpl; [reflexivity|].
  rewrite !sum_mmr_cons, IH. lia.
Qed.

Lemma sum_mmr_perm (h : Heap) (l1 l2 : list loc) :
  Permutation l1 l2 -> sum_mmr h l1 = sum_mmr h l2.
Proof.
  induction 1; rewrite ?sum_mmr_cons; lia.
Qed.

Lemma sum_mmr_pointwise (h : Heap) (l1 l2 : list loc) :
  Forall2 (mmr_le h) l1 l2 -> sum_mmr h l1 <= sum_mmr h l2.
Proof.
  induction 1 as [|x y l1 l2 Hxy _ IH]; [reflexivity|].
  rewrite !sum_mmr_cons. unfold mmr_le in Hxy. lia.
Qed.

Lemma Forall2_nth_error {A} (R : A -> A -> Prop) (l1 l2 : list A) (k : nat) :
  Forall2 R l1 l2 -> (k < List.length l1)%nat ->
  exists a b, nth_error l1 k = Some a /\ nth_error l2 k = Some b /\ R a b.
Proof.
  intros H. revert k. induction H as [|x y l1 l2 Hxy _ IH]; intros k Hk.
  - simpl in Hk. lia.
  - destruct k as [|k]; simpl.
    + exists x, y. auto.
    + apply IH. simpl in Hk. lia.
Qed.

(** ** Removal when the queued identities are pairwise distinct *)





Lemma window_incl {A} (l : list A) (k n : nat) : incl (firstn n (skipn k l)) l.
Proof.
  intros x Hx. rewrite <- (firstn_skipn k l). apply in_or_app. right.
  rewrite <- (firstn_skipn n (skipn k l)). apply in_or_app. now left.
Qed.




Lemma nth_window_facts (h : Heap) (self : Matchmaker) (team_size : Z) (i : nat) :
  0 < team_size -> (i <= last_start self team_size)%nat ->
  team_size * 2 <= Z.of_nat (List.length (queue self)) ->
  List.length (nth_window h self team_size i) = Z.to_nat (team_size * 2) /\
  StronglySorted (mmr_le h) (nth_window h self team_size i) /\
  incl (nth_window h self team_size i) (queue self).
Proof.
  intros Hts Hi Hlen. unfold nth_window, window, last_start in *. repeat split.
  - apply window_length. rewrite sorted_by_mmr_length. lia.
  - apply StronglySorted_firstn, StronglySorted_skipn, sorted_by_mmr_sorted.
  - intros x Hx. apply window_incl in Hx.
    now apply (Permutation_in x (sorted_by_mmr_perm h (queue self))).
Qed.



(** ** Searches that find nothing *)

Lemma window_step_never_none (clock : Z -> Q) (h : Heap) (self self' : Matchmaker)
      (team_size : Z) (sorted_players : list loc) (i : Z) :
  window_step clock h self team_size sorted_players i <> Done (Returned None) self'.
Proof.
  unfold window_step.
  destruct (py_last _); [|discriminate].
  destruct (py_first _); [|discriminate].
  destruct (min_queue_time _ _); [|discriminate].
  destruct (within_range _ _ _ _); [|discriminate].
  destruct (remove_candidates _ _ _) as [[e|] q']; discriminate.
Qed.

Lemma find_match_none_frame (clock : Z -> Q) (h : Heap) (self self' : Matchmaker)
      (team_size : Z) :
  find_match clock h self team_size = (Returned None, self') -> self' = self.
Proof.
  unfold find_match. destruct (_ <? _); [congruence|].
  intros H. apply scan_inv in H as [(_ & Hs & _)|(pre & i & post & _ & _ & Hi)];
    [exact Hs|].
  now apply window_step_never_none in Hi.
Qed.

(** C7.  A queue of fewer than [2 * team_size] players yields no match, as
    a normal return, and the matchmaker is left as it was. *)
Theorem find_match_short_queue
        (clock : Z -> Q) (h : Heap) (self : Matchmaker) (team_size : Z) :
  Z.of_nat (List.length (queue self)) < 2 * team_size ->
  find_match clock h self team_size = (Returned None, self).
Proof.
  intros H. unfold find_match.
  destruct (_ <? _) eqn:E; [reflexivity|]. apply Z.ltb_ge in E. lia.
Qed.

Lemma find_match_short_queue_witness :
  Z.of_nat (List.length (queue (mkMatchmaker [0; 1; 2]%nat 100 10))) < 2 * 2 /\
  find_match at_noon (ratings_heap six_ratings (12 # 1))
             (mkMatchmaker [0; 1; 2]%nat 100 10) 2
  = (Returned None, mkMatchmaker [0; 1; 2]%nat 100 10).
Proof.
  split; [simpl; lia|].
  apply (find_match_short_queue at_noon (ratings_heap six_ratings (12 # 1))
                                (mkMatchmaker [0; 1; 2]%nat 100 10) 2).
  simpl; lia.
Defined.

(** ** The six-player scenario *)

Lemma min_from_same (t : Q) (l : list Q) :
  Forall (eq t) l -> min_from t l = t.
Proof.
  induction 1 as [|x tl <- _ IH]; simpl; [reflexivity|].
  unfold Qlt_bool. replace (Qle_bool t t) with true; [exact IH|].
  symmetry. apply Qle_bool_iff, Qle_refl.
Qed.

Lemma min_queue_time_same_instant (rs : list Z) (t : Q) (x : loc) (l : list loc) :
  min_queue_time (ratings_heap rs t) (x :: l) = Some t.
Proof.
  simpl. f_equal. apply min_from_same.
  rewrite Forall_map. apply Forall_forall. reflexivity.
Qed.

(** With no waiting the tolerance is the base range. *)
Lemma accepted_no_wait (self : Matchmaker) (t : Q) (r : Z) :
  Qle_bool (inject_Z r) (spec_allowed self t t) = (r <=? base_range self).
Proof.
  assert (spec_allowed self t t == inject_Z (base_range self))%Q as Heq
    by (unfold spec_allowed; ring).
  destruct (r <=? base_range self) eqn:E.
  - apply Qle_bool_iff. rewrite Heq. rewrite <- Zle_Qle. now apply Z.leb_le.
  - destruct (Qle_bool _ _) eqn:E'; [|reflexivity].
    apply Qle_bool_iff in E'. rewrite Heq in E'. rewrite <- Zle_Qle in E'.
    apply Z.leb_le in E'. congruence.
Qed.

Lemma six_accepted (t : Q) (base : Z) :
  accepted_at (fun _ => t) (ratings_heap six_ratings t) (mm6 base) 3 0 = (50 <=? base).
Proof.
  unfold accepted_at.
  change (nth_window (ratings_heap six_ratings t) (mm6 base) 3 0)
    with [0; 1; 2; 3; 4; 5]%nat.
  unfold spec_accepted. rewrite min_queue_time_same_instant.
  change (spec_spread (ratings_heap six_ratings t) [0; 1; 2; 3; 4; 5]%nat) with 50.
  apply accepted_no_wait.
Qed.

(** C9.  Six players rated 1000..1050, enqueued at one instant [t] and
    searched at [t] with team_size 3 and range_expansion 0: with base_range
    50 the match has team1 = ranks 0,2,4 (1000, 1020, 1040), team2 = ranks
    1,3,5 (1010, 1030, 1050) and average 1025; with base_range 20 there is
    no match and the matchmaker is unchanged. *)
Theorem scenario_six_players (t : Q) :
  find_match (fun _ => t) (ratings_heap six_ratings t) (mm6 50) 3
  = (Returned (Some (mkMatch [0; 2; 4]%nat [1; 3; 5]%nat 1025)),
     mkMatchmaker [] 50 0)
  /\ ratings (ratings_heap six_ratings t) [0; 2; 4]%nat = [1000; 1020; 1040]
  /\ ratings (ratings_heap six_ratings t) [1; 3; 5]%nat = [1010; 1030; 1050]
  /\ find_match (fun _ => t) (ratings_heap six_ratings t) (mm6 20) 3
     = (Returned None, mm6 20).
Proof.
  split; [|split; [reflexivity|split; [reflexivity|]]].
  - destruct (find_match_first (fun _ => t) (ratings_heap six_ratings t) (mm6 50) 3 0)
      as (q' & Hq' & ->).
    + lia.
    + simpl; lia.
    + apply Nat.le_0_l.
    + now rewrite six_accepted.
    + intros j Hj. lia.
    + change (nth_window (ratings_heap six_ratings t) (mm6 50) 3 0)
        with [0; 1; 2; 3; 4; 5]%nat in *.
      change (remove_candidates (ratings_heap six_ratings t)
                [0; 1; 2; 3; 4; 5]%nat (queue (mm6 50)))
        with (@None exn, @nil loc) in Hq'.
      injection Hq' as <-. reflexivity.
  - apply find_match_none; [lia|simpl; lia|].
    intros i Hi. change (last_start (mm6 20) 3) with 0%nat in Hi.
    assert (i = 0%nat) as -> by lia. now rewrite six_accepted.
Qed.

(** ** Teams *)




(** ** Average rating *)



(** ** Tolerance and waiting *)






(** ** Non-positive team sizes *)




(** ** Enqueueing *)




(** * Further properties of the matchmaker *)

(** ** Every branch of one loop iteration *)



(** ** What removal does to the queue *)



Lemma Subseq_In {A} (l1 l2 : list A) (x : A) : Subseq l1 l2 -> In x l1 -> In x l2.
Proof.
  induction 1 as [|y l1 l2 _ IH|y l1 l2 _ IH]; simpl; intros Hx; auto.
  destruct Hx; auto.
Qed.




(** ** Conservation of players *)



(** ** Quality of a match *)

Lemma fold_max_bounds (rs : list Z) (r : Z) :
  r <= fold_left Z.max rs r /\ Forall (fun x => x <= fold_left Z.max rs r) rs.
Proof.
  revert r. induction rs as [|x tl IH]; intros r; simpl.
  - split; [lia|constructor].
  - destruct (IH (Z.max r x)) as [H1 H2]. split; [lia|].
    constructor; [lia|exact H2].
Qed.

Lemma fold_min_bounds (rs : list Z) (r : Z) :
  fold_left Z.min rs r <= r /\ Forall (fun x => fold_left Z.min rs r <= x) rs.
Proof.
  revert r. induction rs as [|x tl IH]; intros r; simpl.
  - split; [lia|constructor].
  - destruct (IH (Z.min r x)) as [H1 H2]. split; [lia|].
    constructor; [lia|exact H2].
Qed.

Lemma rating_bounds (h : Heap) (l : list loc) (p : loc) :
  In p l -> min_rating h l <= mmr (h p) <= max_rating h l.
Proof.
  destruct l as [|x tl]; [intros []|].
  unfold min_rating, max_rating, ratings. cbn [map].
  destruct (fold_max_bounds (map (fun q => mmr (h q)) tl) (mmr (h x))) as [Hx Hall].
  destruct (fold_min_bounds (map (fun q => mmr (h q)) tl) (mmr (h x))) as [Hx' Hall'].
  rewrite Forall_map, Forall_forall in Hall, Hall'.
  intros [<-|Hp]; [lia|].
  specialize (Hall p Hp). specialize (Hall' p Hp). simpl in *. lia.
Qed.




(** ** Invariants kept by add_to_queue *)

Lemma add_to_queue_ids (now : Q) (h : Heap) (self : Matchmaker) (player : loc)
      (l : list loc) :
  ids (fst (add_to_queue now h self player)) l = ids h l.
Proof.
  unfold ids. apply map_ext. intros p. simpl.
  destruct (Nat.eqb p player); reflexivity.
Qed.

(** Adding a player whose identity is not yet queued keeps the queued
    identities pairwise distinct. *)
Theorem add_to_queue_keeps_distinct_ids
        (now : Q) (h : Heap) (self : Matchmaker) (player : loc) :
  distinct_ids h (queue self) ->
  ~ In (id (h player)) (ids h (queue self)) ->
  distinct_ids (fst (add_to_queue now h self player))
               (queue (snd (add_to_queue now h self player))).
Proof.
  intros Hd Hfresh. unfold distinct_ids. rewrite add_to_queue_ids.
  cbn [add_to_queue snd queue]. unfold ids. rewrite map_app. cbn [map].
  apply NoDup_app; [exact Hd|repeat constructor; intros []|].
  intros a Ha [<-|[]]. exact (Hfresh Ha).
Qed.

Lemma add_to_queue_keeps_distinct_ids_witness :
  distinct_ids (ratings_heap six_ratings 0) [0; 1]%nat /\
  ~ In (id (ratings_heap six_ratings 0 2%nat)) (ids (ratings_heap six_ratings 0) [0; 1]%nat) /\
  distinct_ids (fst (add_to_queue (3 # 1) (ratings_heap six_ratings 0)
                                  (mkMatchmaker [0; 1]%nat 100 10) 2%nat))
               [0; 1; 2]%nat.
Proof.
  assert (distinct_ids (ratings_heap six_ratings 0) [0; 1]%nat) as Hd.
  { unfold distinct_ids. vm_compute.
    repeat (constructor; [simpl; intuition discriminate|]). constructor. }
  assert (~ In (id (ratings_heap six_ratings 0 2%nat))
            (ids (ratings_heap six_ratings 0) [0; 1]%nat)) as Hf
    by (vm_compute; intuition discriminate).
  split; [exact Hd|]. split; [exact Hf|].
  exact (add_to_queue_keeps_distinct_ids
           (3 # 1) (ratings_heap six_ratings 0) (mkMatchmaker [0; 1]%nat 100 10) 2%nat Hd Hf).
Defined.

(** With a clock that does not run backwards no queued player has an
    enqueue reading in the future: if every queued reading is at most T
    and the add happens at now >= T, every queued reading is at most now
    afterwards. *)
Theorem add_to_queue_keeps_readings_past
        (now T : Q) (h : Heap) (self : Matchmaker) (player : loc) :
  enqueued_by h (queue self) T -> (T <= now)%Q ->
  enqueued_by (fst (add_to_queue now h self player))
              (queue (snd (add_to_queue now h self player))) now.
Proof.
  intros Hpast HT p Hp. cbn [add_to_queue fst snd queue] in *.
  destruct (Nat.eqb p player) eqn:E; [apply Qle_refl|].
  apply in_app_or in Hp as [Hp|[<-|[]]].
  - eapply Qle_trans; [now apply Hpast|exact HT].
  - rewrite Nat.eqb_refl in E. discriminate.
Qed.

Lemma add_to_queue_keeps_readings_past_witness :
  enqueued_by (ratings_heap six_ratings (1 # 1)) [0; 1]%nat (2 # 1) /\
  (2 # 1 <= 3 # 1)%Q /\
  enqueued_by (fst (add_to_queue (3 # 1) (ratings_heap six_ratings (1 # 1))
                                 (mkMatchmaker [0; 1]%nat 100 10) 2%nat))
              [0; 1; 2]%nat (3 # 1).
Proof.
  assert (enqueued_by (ratings_heap six_ratings (1 # 1)) [0; 1]%nat (2 # 1)) as Hp
    by (intros p _; vm_compute; discriminate).
  assert (2 # 1 <= 3 # 1)%Q as Hle by (vm_compute; discriminate).
  split; [exact Hp|]. split; [exact Hle|].
  exact (add_to_queue_keeps_readings_past
           (3 # 1) (2 # 1) (ratings_heap six_ratings (1 # 1))
           (mkMatchmaker [0; 1]%nat 100 10) 2%nat Hp Hle).
Defined.

(** ** Order of the scan *)

Lemma insert_by_mmr_filter (h : Heap) (k : Z) (p : loc) (l : list loc) :
  filter (fun x => mmr (h x) =? k) (insert_by_mmr h p l)
  = filter (fun x => mmr (h x) =? k) (p :: l).
Proof.
  induction l as [|x tl IH]; [reflexivity|].
  cbn [insert_by_mmr]. destruct (mmr (h p) <=? mmr (h x)) eqn:E; [reflexivity|].
  apply Z.leb_gt in E. cbn [filter] in *. rewrite IH.
  destruct (mmr (h p) =? k) eqn:Ep; [|reflexivity].
  apply Z.eqb_eq in Ep.
  destruct (mmr (h x) =? k) eqn:Ex; [|reflexivity].
  apply Z.eqb_eq in Ex. lia.
Qed.

(** The list [find_match] scans is the queue in ascending rating order,
    and players of equal rating keep the order they have in the queue, so
    among equally rated players the earlier queue entries take the lower
    ranks. *)
Theorem sorted_players_order (h : Heap) (q : list loc) :
  Permutation (sorted_by_mmr h q) q
  /\ StronglySorted (mmr_le h) (sorted_by_mmr h q)
  /\ forall k, filter (fun x => mmr (h x) =? k) (sorted_by_mmr h q)
               = filter (fun x => mmr (h x) =? k) q.
Proof.
  split; [apply sorted_by_mmr_perm|]. split; [apply sorted_by_mmr_sorted|].
  intros k. induction q as [|p tl IH]; [reflexivity|].
  cbn [sorted_by_mmr fold_right]. fold (sorted_by_mmr h tl).
  rewrite insert_by_mmr_filter. cbn [filter]. now rewrite IH.
Qed.

(** ** A new matchmaker and a run of adds *)

Lemma add_all_spec (adds : list (Q * loc)) :
  forall (h : Heap) (s : Matchmaker),
    let st := add_all adds (h, s) in
    queue (snd st) = queue s ++ map snd adds
    /\ base_range (snd st) = base_range s
    /\ range_expansion (snd st) = range_expansion s
    /\ (forall p, id (fst st p) = id (h p) /\ mmr (fst st p) = mmr (h p))
    /\ (forall p, ~ In p (map snd adds) -> fst st p = h p)
    /\ (forall pre t p post,
          adds = pre ++ (t, p) :: post -> ~ In p (map snd post) ->
          queue_time (fst st p) = t).
Proof.
  induction adds as [|[now pl] rest IH]; intros h s.
  - cbn. rewrite app_nil_r.
    split; [reflexivity|]. split; [reflexivity|]. split; [reflexivity|].
    split; [intros p; split; reflexivity|]. split; [reflexivity|].
    intros [|a pre] t p post Heq; discriminate.
  - cbn [add_all fst snd].
    specialize (IH (fst (add_to_queue now h s pl)) (snd (add_to_queue now h s pl))).
    rewrite <- surjective_pairing in IH.
    destruct IH as (Hq & Hb & He & Hid & Hout & Hlast).
    cbn [add_to_queue fst snd queue base_range range_expansion] in *.
    split; [rewrite Hq, <- app_assoc; reflexivity|].
    split; [exact Hb|]. split; [exact He|]. split; [|split].
    + intros p. destruct (Hid p) as [H1 H2]. rewrite H1, H2.
      destruct (Nat.eqb p pl); auto.
    + intros p Hp. cbn [map snd] in Hp.
      rewrite Hout by (intros Hin; apply Hp; now right).
      destruct (Nat.eqb p pl) eqn:E; [|reflexivity].
      apply Nat.eqb_eq in E. subst. exfalso. apply Hp. now left.
    + intros pre t p post Heq Hp. destruct pre as [|a pre'].
      * cbn in Heq. inversion Heq; subst.
        rewrite (Hout p Hp), Nat.eqb_refl. reflexivity.
      * cbn in Heq. inversion Heq; subst. now apply (Hlast pre' t p post).
Qed.

(** Starting from a new matchmaker, a run of adds leaves the queue holding
    exactly the added players in the order of the calls (an object added
    twice appears twice), the tolerance parameters as constructed, every
    player's identity and rating as they were, objects never added
    untouched, and each added object stamped with the reading of its last
    add. *)
Theorem adds_to_new_matchmaker
        (adds : list (Q * loc)) (h : Heap) (base expansion : Z) :
  let st := add_all adds (h, new_matchmaker base expansion) in
  queue (snd st) = map snd adds
  /\ base_range (snd st) = base
  /\ range_expansion (snd st) = expansion
  /\ (forall p, id (fst st p) = id (h p) /\ mmr (fst st p) = mmr (h p))
  /\ (forall p, ~ In p (map snd adds) -> fst st p = h p)
  /\ (forall pre t p post,
        adds = pre ++ (t, p) :: post -> ~ In p (map snd post) ->
        queue_time (fst st p) = t).
Proof.
  exact (add_all_spec adds h (new_matchmaker base expansion)).
Qed.

Lemma adds_to_new_matchmaker_witness :
  queue (snd (add_all [(1 # 1, 0%nat); (2 # 1, 1%nat); (3 # 1, 0%nat)]
                      (ratings_heap six_ratings 0, default_matchmaker)))
  = [0; 1; 0]%nat
  /\ queue_time (fst (add_all [(1 # 1, 0%nat); (2 # 1, 1%nat); (3 # 1, 0%nat)]
                              (ratings_heap six_ratings 0, default_matchmaker)) 0%nat)
     = (3 # 1)%Q.
Proof.
  destruct (adds_to_new_matchmaker
              [(1 # 1, 0%nat); (2 # 1, 1%nat); (3 # 1, 0%nat)]
              (ratings_heap six_ratings 0) 100 10)
    as (Hq & _ & _ & _ & _ & Hlast).
  split; [exact Hq|].
  apply (Hlast [(1 # 1, 0%nat); (2 # 1, 1%nat)] (3 # 1) 0%nat []); [reflexivity|].
  intros [].
Defined.

(** A new matchmaker cannot produce a match before [2 * team_size] adds:
    after fewer adds [find_match] returns no match and changes nothing. *)
Theorem too_few_adds_no_match
        (clock : Z -> Q) (adds : list (Q * loc)) (h : Heap) (base expansion team_size : Z) :
  Z.of_nat (List.length adds) < 2 * team_size ->
  let st := add_all adds (h, new_matchmaker base expansion) in
  find_match clock (fst st) (snd st) team_size = (Returned None, snd st).
Proof.
  intros Hfew st.
  destruct (add_all_spec adds h (new_matchmaker base expansion)) as (Hq & _).
  fold st in Hq. cbn [new_matchmaker queue app] in Hq.
  unfold find_match. rewrite Hq, length_map.
  destruct (_ <? _) eqn:E; [reflexivity|]. apply Z.ltb_ge in E. lia.
Qed.

Lemma too_few_adds_no_match_witness :
  Z.of_nat (List.length [(1 # 1, 0%nat); (2 # 1, 1%nat); (3 # 1, 2%nat)]) < 2 * 2 /\
  fst (find_match at_noon
         (fst (add_all [(1 # 1, 0%nat); (2 # 1, 1%nat); (3 # 1, 2%nat)]
                       (ratings_heap six_ratings 0, default_matchmaker)))
         (snd (add_all [(1 # 1, 0%nat); (2 # 1, 1%nat); (3 # 1, 2%nat)]
                       (ratings_heap six_ratings 0, default_matchmaker))) 2)
  = Returned None.
Proof.
  split; [simpl; lia|]. unfold default_matchmaker.
  rewrite (too_few_adds_no_match
             at_noon [(1 # 1, 0%nat); (2 # 1, 1%nat); (3 # 1, 2%nat)]
             (ratings_heap six_ratings 0) 100 10 2); [reflexivity|simpl; lia].
Defined.

(** ** Team sizes that are not positive *)




(** * The search as Python runs it *)

(** ** The loop for any way of deciding a window *)

Lemma find_match_is_exact (clock : Z -> Q) (h : Heap) (self : Matchmaker) (team_size : Z) :
  find_match clock h self team_size = find_match_by exact_tolerance clock h self team_size.
Proof.
  unfold find_match, find_match_by. destruct (_ <? _); [reflexivity|].
  assert (forall l, scan (window_step clock h self team_size
                                      (sorted_by_mmr h (queue self))) self l
                    = scan (window_step_by exact_tolerance clock h self team_size
                                           (sorted_by_mmr h (queue self))) self l) as H.
  { induction l as [|i rest IH]; [reflexivity|]. cbn [scan]. rewrite IH.
    replace (window_step_by exact_tolerance clock h self team_size
                            (sorted_by_mmr h (queue self)) i)
      with (window_step clock h self team_size (sorted_by_mmr h (queue self)) i);
      [reflexivity|].
    unfold window_step, window_step_by, exact_tolerance.
    destruct (py_last _); [|reflexivity]. destruct (py_first _); [|reflexivity].
    destruct (min_queue_time _ _); [|reflexivity].
    destruct (within_range _ _ _ _); reflexivity. }
  apply H.
Qed.

Section AnyTolerance.

Variable tol : Matchmaker -> Z -> Q -> Q -> verdict.

Lemma window_step_by_cases (clock : Z -> Q) (h : Heap) (self : Matchmaker)
      (team_size i : Z) :
  let candidates := py_slice (sorted_by_mmr h (queue self)) i (i + team_size * 2) in
  let result := window_step_by tol clock h self team_size (sorted_by_mmr h (queue self)) i in
  (candidates = [] /\ result = Done (Raised IndexError) self)
  \/ (candidates <> [] /\
      exists hi lo earliest,
        py_last candidates = Some hi /\ py_first candidates = Some lo /\
        min_queue_time h candidates = Some earliest /\
        match tol self (mmr (h hi) - mmr (h lo)) (clock i) earliest with
        | Reject => result = Continue
        | Overflow => result = Done (Raised OverflowError) self
        | Accept =>
            exists q', remove_candidates h candidates (queue self) = (None, q') /\
                       result = Done (Returned (Some (build_match h candidates)))
                                     (set_queue self q')
        end).
Proof.
  intros candidates result. unfold result, window_step_by. fold candidates.
  assert (exists q', remove_candidates h candidates (queue self) = (None, q'))
    as (q' & Hq') by apply remove_window_total.
  destruct candidates as [|x tl] eqn:Ec.
  - left. split; reflexivity.
  - right. split; [discriminate|].
    destruct (py_last_nonempty x tl) as [hi Hhi]. rewrite Hhi. cbn [py_first].
    destruct (min_queue_time_nonempty h x tl) as [e He]. rewrite He.
    exists hi, x, e. repeat split.
    destruct (tol _ _ _ _); [|reflexivity|reflexivity].
    exists q'. rewrite Hq'. auto.
Qed.

Lemma window_step_by_never_none (clock : Z -> Q) (h : Heap) (self self' : Matchmaker)
      (team_size : Z) (sorted_players : list loc) (i : Z) :
  window_step_by tol clock h self team_size sorted_players i <> Done (Returned None) self'.
Proof.
  unfold window_step_by.
  destruct (py_last _); [|discriminate].
  destruct (py_first _); [|discriminate].
  destruct (min_queue_time _ _); [|discriminate].
  destruct (tol _ _ _ _); try discriminate.
  destruct (remove_candidates _ _ _) as [[e|] q']; discriminate.
Qed.

(** What one iteration does on a window inside the sorted queue. *)
Lemma window_step_by_at (clock : Z -> Q) (h : Heap) (self : Matchmaker)
      (team_size : Z) (i : nat) :
  0 < team_size ->
  team_size * 2 <= Z.of_nat (List.length (queue self)) ->
  (i <= last_start self team_size)%nat ->
  exists q',
    remove_candidates h (nth_window h self team_size i) (queue self) = (None, q') /\
    window_step_by tol clock h self team_size (sorted_by_mmr h (queue self)) (Z.of_nat i) =
    match verdict_at tol clock h self team_size i with
    | Accept => Done (Returned (Some (build_match h (nth_window h self team_size i))))
                     (set_queue self q')
    | Reject => Continue
    | Overflow => Done (Raised OverflowError) self
    end.
Proof.
  intros Hts Hlen Hi.
  destruct (nth_window_facts h self team_size i Hts Hi Hlen) as (Hl & Hs & _).
  destruct (remove_window_total h (queue self) i (Z.to_nat (team_size * 2))) as [q' Hq'].
  exists q'. split; [exact Hq'|].
  pose proof (window_step_by_cases clock h self team_size (Z.of_nat i)) as Hc.
  cbv zeta in Hc.
  assert (py_slice (sorted_by_mmr h (queue self)) (Z.of_nat i) (Z.of_nat i + team_size * 2)
          = nth_window h self team_size i) as Hw.
  { rewrite py_slice_window by (rewrite ?sorted_by_mmr_length; unfold last_start in Hi; lia).
    now rewrite Nat2Z.id. }
  rewrite Hw in Hc.
  change (remove_candidates h (nth_window h self team_size i) (queue self) = (None, q'))
    in Hq'.
  destruct Hc as [(Hnil & _)|(_ & hi & lo & e & Hhi & Hlo & He & Hv)].
  - rewrite Hnil in Hl. simpl in Hl. lia.
  - unfold verdict_at. rewrite He.
    rewrite (spread_of_sorted h _ hi lo Hs Hhi Hlo) in Hv.
    destruct (tol _ _ _ _); auto.
    destruct Hv as (q2 & Hq2 & ->). rewrite Hq' in Hq2. injection Hq2 as <-. reflexivity.
Qed.

Lemma find_match_by_unfold (clock : Z -> Q) (h : Heap) (self : Matchmaker) (team_size : Z) :
  0 < team_size ->
  team_size * 2 <= Z.of_nat (List.length (queue self)) ->
  find_match_by tol clock h self team_size =
  scan (window_step_by tol clock h self team_size (sorted_by_mmr h (queue self))) self
       (py_range (Z.of_nat (S (last_start self team_size)))).
Proof.
  intros Hts Hlen. unfold find_match_by.
  destruct (_ <? _) eqn:E; [apply Z.ltb_lt in E; lia|].
  rewrite sorted_by_mmr_length. f_equal. f_equal. unfold last_start. lia.
Qed.

Lemma find_match_by_none (clock : Z -> Q) (h : Heap) (self : Matchmaker) (team_size : Z) :
  0 < team_size ->
  team_size * 2 <= Z.of_nat (List.length (queue self)) ->
  (forall i, (i <= last_start self team_size)%nat ->
             verdict_at tol clock h self team_size i = Reject) ->
  find_match_by tol clock h self team_size = (Returned None, self).
Proof.
  intros Hts Hlen Hrej. rewrite find_match_by_unfold by assumption.
  apply scan_all_continue. intros j Hj. apply in_py_range in Hj.
  destruct (window_step_by_at clock h self team_size (Z.to_nat j) Hts Hlen)
    as (q' & _ & Hstep); [lia|].
  rewrite Z2Nat.id in Hstep by lia. rewrite Hstep, Hrej; [reflexivity|lia].
Qed.

(** The first window that is not rejected decides the call. *)
Lemma find_match_by_first (clock : Z -> Q) (h : Heap) (self : Matchmaker)
      (team_size : Z) (i : nat) :
  0 < team_size ->
  team_size * 2 <= Z.of_nat (List.length (queue self)) ->
  (i <= last_start self team_size)%nat ->
  (forall j, (j < i)%nat -> verdict_at tol clock h self team_size j = Reject) ->
  exists q',
    remove_candidates h (nth_window h self team_size i) (queue self) = (None, q') /\
    find_match_by tol clock h self team_size =
    match verdict_at tol clock h self team_size i with
    | Accept => (Returned (Some (build_match h (nth_window h self team_size i))),
                 set_queue self q')
    | Reject => find_match_by tol clock h self team_size
    | Overflow => (Raised OverflowError, self)
    end.
Proof.
  intros Hts Hlen Hi Hrej.
  destruct (window_step_by_at clock h self team_size i Hts Hlen Hi) as (q' & Hq' & Hstep).
  exists q'. split; [exact Hq'|].
  destruct (verdict_at tol clock h self team_size i) eqn:Hv; [|reflexivity|];
    rewrite find_match_by_unfold by assumption;
    rewrite (py_range_split (S (last_start self team_size)) i) by lia;
    (apply scan_first_done; [|exact Hstep]);
    intros j Hj; apply in_map_iff in Hj as (k & <- & Hk); apply in_seq in Hk;
    (destruct (window_step_by_at clock h self team_size k Hts Hlen) as (q1 & _ & Hk1);
     [lia|]); rewrite Hk1, Hrej; (reflexivity || lia).
Qed.

Lemma least_not_rejected (clock : Z -> Q) (h : Heap) (self : Matchmaker)
      (team_size : Z) (n : nat) :
  (forall j, (j < n)%nat -> verdict_at tol clock h self team_size j = Reject)
  \/ exists i, (i < n)%nat /\ verdict_at tol clock h self team_size i <> Reject /\
               forall j, (j < i)%nat -> verdict_at tol clock h self team_size j = Reject.
Proof.
  induction n as [|n IH].
  - left. intros j Hj. lia.
  - destruct IH as [IH|(i & Hi & Ha & Hr)].
    + destruct (verdict_at tol clock h self team_size n) eqn:E.
      * right. exists n. rewrite E. repeat split; auto; discriminate.
      * left. intros j Hj. destruct (Nat.eq_dec j n) as [->|]; [exact E|apply IH; lia].
      * right. exists n. rewrite E. repeat split; auto; discriminate.
    + right. exists i. repeat split; auto.
Qed.

(** Every run on a long enough queue with a positive team size. *)
Lemma find_match_by_inv (clock : Z -> Q) (h : Heap) (self : Matchmaker) (team_size : Z) :
  0 < team_size ->
  team_size * 2 <= Z.of_nat (List.length (queue self)) ->
  (find_match_by tol clock h self team_size = (Returned None, self) /\
   forall i, (i <= last_start self team_size)%nat ->
             verdict_at tol clock h self team_size i = Reject)
  \/ exists i,
       (i <= last_start self team_size)%nat /\
       (forall j, (j < i)%nat -> verdict_at tol clock h self team_size j = Reject) /\
       ((verdict_at tol clock h self team_size i = Overflow /\
         find_match_by tol clock h self team_size = (Raised OverflowError, self))
        \/ (verdict_at tol clock h self team_size i = Accept /\
            exists q',
              remove_candidates h (nth_window h self team_size i) (queue self) = (None, q') /\
              find_match_by tol clock h self team_size =
              (Returned (Some (build_match h (nth_window h self team_size i))),
               set_queue self q'))).
Proof.
  intros Hts Hlen.
  destruct (least_not_rejected clock h self team_size (S (last_start self team_size)))
    as [Hnone|(i & Hi & Ha & Hr)].
  - left. split; [apply find_match_by_none; auto|]; intros i Hi; apply Hnone; lia.
  - right. exists i. split; [lia|]. split; [exact Hr|].
    destruct (find_match_by_first clock h self team_size i Hts Hlen) as (q' & Hq' & Hfm);
      [lia|exact Hr|].
    destruct (verdict_at tol clock h self team_size i) eqn:Hv.
    + right. split; [reflexivity|]. exists q'. auto.
    + congruence.
    + left. auto.
Qed.

(** Every run, whatever the team size. *)
Lemma find_match_by_cases (clock : Z -> Q) (h : Heap) (self self' : Matchmaker)
      (team_size : Z) (o : outcome) :
  find_match_by tol clock h self team_size = (o, self') ->
  (o = Returned None /\ self' = self)
  \/ (o = Raised IndexError /\ self' = self /\ team_size <= 0)
  \/ (o = Raised OverflowError /\ self' = self /\
      exists r now earliest, tol self r now earliest = Overflow)
  \/ exists i candidates q',
       candidates = py_slice (sorted_by_mmr h (queue self)) i (i + team_size * 2) /\
       candidates <> [] /\
       remove_candidates h candidates (queue self) = (None, q') /\
       o = Returned (Some (build_match h candidates)) /\
       self' = set_queue self q'.
Proof.
  unfold find_match_by. destruct (_ <? _) eqn:E.
  - intros H. injection H as <- <-. now left.
  - apply Z.ltb_ge in E. intros H.
    apply scan_inv in H as [(Ho & Hs & _)|(pre & i & post & Hidx & _ & Hi)];
      [now left|].
    assert (In i (py_range (Z.of_nat (List.length (sorted_by_mmr h (queue self)))
                            - team_size * 2 + 1))) as Hin
      by (rewrite Hidx; apply in_or_app; right; now left).
    apply in_py_range in Hin. rewrite sorted_by_mmr_length in Hin.
    pose proof (window_step_by_cases clock h self team_size i) as Hc. cbv zeta in Hc.
    rewrite Hi in Hc.
    destruct Hc as [(Hnil & Hr)|(Hne & hi & lo & e & _ & _ & _ & Hv)].
    + injection Hr as -> ->. right. left. repeat split.
      destruct (Z.le_gt_cases team_size 0) as [Hle|Hgt]; [exact Hle|exfalso].
      rewrite py_slice_window in Hnil by (rewrite ?sorted_by_mmr_length; lia).
      apply (f_equal (@List.length loc)) in Hnil.
      rewrite window_length in Hnil by (rewrite sorted_by_mmr_length; lia).
      simpl in Hnil. lia.
    + destruct (tol self (mmr (h hi) - mmr (h lo)) (clock i) e) eqn:Ht.
      * destruct Hv as (q' & Hq' & Hr). injection Hr as -> ->.
        right. right. right.
        exists i, (py_slice (sorted_by_mmr h (queue self)) i (i + team_size * 2)), q'.
        repeat split; auto.
      * discriminate.
      * injection Hv as -> ->. right. right. left. repeat split; eauto.
Qed.

End AnyTolerance.

(** ** The binary64 decision *)

Lemma tolerance64_converted (self : Matchmaker) (r : Z) (now earliest base expansion : Q) :
  f64_of_int (base_range self) = Some base ->
  f64_of_int (range_expansion self) = Some expansion ->
  tolerance64 self r now earliest =
  if int_le_f64 r (f64_add base (f64_mul (f64_sub now earliest) expansion))
  then Accept else Reject.
Proof. intros Hb He. unfold tolerance64. now rewrite He, Hb. Qed.

Lemma tolerance64_overflow (self : Matchmaker) (r : Z) (now earliest : Q) :
  tolerance64 self r now earliest = Overflow <->
  f64_of_int (base_range self) = None \/ f64_of_int (range_expansion self) = None.
Proof.
  unfold tolerance64.
  destruct (f64_of_int (range_expansion self)) as [x|];
    destruct (f64_of_int (base_range self)) as [b|];
    try destruct (int_le_f64 _ _); split; intros H; auto; try discriminate;
    destruct H; discriminate.
Qed.

Lemma verdict64_converted (clock : Z -> Q) (h : Heap) (self : Matchmaker)
      (team_size : Z) (i : nat) :
  f64_of_int (base_range self) <> None ->
  f64_of_int (range_expansion self) <> None ->
  verdict_at tolerance64 clock h self team_size i =
  if accepted64_at clock h self team_size i then Accept else Reject.
Proof.
  intros Hb He. unfold accepted64_at.
  destruct (verdict_at tolerance64 clock h self team_size i) eqn:Hv; try reflexivity.
  unfold verdict_at in Hv. destruct (min_queue_time _ _); [|discriminate].
  apply tolerance64_overflow in Hv. tauto.
Qed.

Lemma int_le_f64_lower (z z' : Z) (x : f64) :
  z <= z' -> int_le_f64 z' x = true -> int_le_f64 z x = true.
Proof.
  destruct x as [q| | |]; simpl; auto. intros Hz H.
  apply Qle_bool_iff in H. apply Qle_bool_iff.
  eapply Qle_trans; [|exact H]. now rewrite <- Zle_Qle.
Qed.

(** ** The scan *)

(** C1, as stated, fails.  (a) With ratings 0 and 2^53+1, base_range
    2^53+1 and no waiting, the spread does not exceed base_range + wait *
    range_expansion, yet the code returns no match: it has rounded
    base_range down to 2^53.  (b) With team_size 0 the call raises
    IndexError.  (c) With base_range 10^400 it raises OverflowError. *)
Lemma first_accepted_window_counterexample :
  (spec_accepted far_apart (mkMatchmaker [0; 1]%nat (2 ^ 53 + 1) 0) (12 # 1) [0; 1]%nat = true
   /\ 1 * 2 <= Z.of_nat (List.length [0; 1]%nat)
   /\ find_match64 at_noon far_apart (mkMatchmaker [0; 1]%nat (2 ^ 53 + 1) 0) 1
      = (Returned None, mkMatchmaker [0; 1]%nat (2 ^ 53 + 1) 0))
  /\ find_match64 at_noon (ratings_heap six_ratings (12 # 1)) (mm6 50) 0
     = (Raised IndexError, mm6 50)
  /\ find_match64 at_noon (ratings_heap six_ratings (12 # 1))
                  (mkMatchmaker [0; 1; 2; 3; 4; 5]%nat (10 ^ 400) 0) 3
     = (Raised OverflowError, mkMatchmaker [0; 1; 2; 3; 4; 5]%nat (10 ^ 400) 0).
Proof.
  repeat split; try (vm_compute; reflexivity). simpl; lia.
Qed.

(** C1, amended.  For team_size > 0, tolerance parameters that convert to
    doubles, and a queue of at least [2 * team_size] players: the windows
    scanned are the runs of exactly [2 * team_size] consecutive players of
    the rating-sorted queue, from rank 0 upward; window [i] is accepted iff
    max rating - min rating <= base_range + (now - earliest) *
    range_expansion with every operation carried out in binary64, where
    [now] is the clock reading of iteration [i] and [earliest] the least
    enqueue reading in the window; the call returns the match built from
    the accepted window of lowest rank (even ranks, odd ranks, floor of
    the mean), and no match when no window is accepted. *)
Theorem find_match64_first_accepted_window
        (clock : Z -> Q) (h : Heap) (self : Matchmaker) (team_size : Z)
        (base expansion : Q) :
  0 < team_size ->
  team_size * 2 <= Z.of_nat (List.length (queue self)) ->
  f64_of_int (base_range self) = Some base ->
  f64_of_int (range_expansion self) = Some expansion ->
  (forall i, (i <= last_start self team_size)%nat ->
     let win := nth_window h self team_size i in
     win = firstn (Z.to_nat (team_size * 2)) (skipn i (sorted_by_mmr h (queue self))) /\
     Z.of_nat (List.length win) = 2 * team_size /\
     StronglySorted (mmr_le h) win /\
     exists earliest,
       In earliest (map (fun p => queue_time (h p)) win) /\
       (forall p, In p win -> (earliest <= queue_time (h p))%Q) /\
       (accepted64_at clock h self team_size i = true <->
        int_le_f64 (max_rating h win - min_rating h win)
                   (f64_add base
                            (f64_mul (f64_sub (clock (Z.of_nat i)) earliest) expansion))
        = true))
  /\ (forall i, (i <= last_start self team_size)%nat ->
        accepted64_at clock h self team_size i = true ->
        (forall j, (j < i)%nat -> accepted64_at clock h self team_size j = false) ->
        let win := nth_window h self team_size i in
        fst (find_match64 clock h self team_size) =
        Returned (Some (mkMatch (evens win) (odds win)
                                (sum_mmr h win / Z.of_nat (List.length win)))))
  /\ ((forall i, (i <= last_start self team_size)%nat ->
         accepted64_at clock h self team_size i = false) ->
      fst (find_match64 clock h self team_size) = Returned None).
Proof.
  intros Hts Hlen Hb He.
  assert (f64_of_int (base_range self) <> None) as Hb' by congruence.
  assert (f64_of_int (range_expansion self) <> None) as He' by congruence.
  split; [|split].
  - intros i Hi win.
    destruct (nth_window_facts h self team_size i Hts Hi Hlen) as (Hl & Hs & _).
    fold win in Hl, Hs. split; [reflexivity|]. split; [lia|]. split; [exact Hs|].
    unfold accepted64_at, verdict_at. fold win.
    destruct (min_queue_time h win) as [e|] eqn:Hmin.
    + destruct (min_queue_time_least h win e Hmin) as [Hin Hleast].
      exists e. split; [exact Hin|]. split; [exact Hleast|].
      rewrite (tolerance64_converted self _ _ _ base expansion Hb He).
      unfold spec_spread. destruct (int_le_f64 _ _); split; auto; discriminate.
    + destruct win; [simpl in Hl; lia|discriminate].
  - intros i Hi Ha Hr win.
    destruct (find_match_by_first tolerance64 clock h self team_size i Hts Hlen Hi)
      as (q' & _ & Hfm).
    { intros j Hj. rewrite verdict64_converted by assumption. now rewrite Hr. }
    rewrite verdict64_converted, Ha in Hfm by assumption.
    unfold find_match64. rewrite Hfm. reflexivity.
  - intros Hr. unfold find_match64. rewrite find_match_by_none; auto.
    intros i Hi. rewrite verdict64_converted by assumption. now rewrite Hr.
Qed.

Lemma find_match64_first_accepted_window_witness :
  0 < 3 /\
  3 * 2 <= Z.of_nat (List.length (queue (mm6 50))) /\
  f64_of_int (base_range (mm6 50)) = Some (inject_Z 50) /\
  f64_of_int (range_expansion (mm6 50)) = Some (inject_Z 0) /\
  fst (find_match64 at_noon (ratings_heap six_ratings (12 # 1)) (mm6 50) 3) =
  Returned (Some (mkMatch [0; 2; 4]%nat [1; 3; 5]%nat 1025)).
Proof.
  split; [lia|]. split; [simpl; lia|].
  split; [vm_compute; reflexivity|]. split; [vm_compute; reflexivity|].
  refine (proj1 (proj2 (find_match64_first_accepted_window
                          at_noon (ratings_heap six_ratings (12 # 1)) (mm6 50) 3
                          (inject_Z 50) (inject_Z 0) _ _ _ _))
                0%nat _ _ _).
  - lia.
  - simpl; lia.
  - vm_compute; reflexivity.
  - vm_compute; reflexivity.
  - vm_compute; lia.
  - vm_compute; reflexivity.
  - intros j Hj; lia.
Defined.

(** ** Searches that find nothing, in binary64 *)

Lemma find_match64_none_frame (clock : Z -> Q) (h : Heap) (self self' : Matchmaker)
      (team_size : Z) :
  find_match64 clock h self team_size = (Returned None, self') -> self' = self.
Proof.
  intros H. apply find_match_by_cases in H
    as [(_ & Hs)|[(Ho & _)|[(Ho & _)|(i & c & q' & _ & _ & _ & Ho & _)]]];
    try discriminate. exact Hs.
Qed.

(** C8, as stated, fails in its first half: a call that accepts no window
    need not return "no match".  With team_size 0 it raises IndexError,
    and with base_range 10^400 it raises OverflowError. *)
Lemma failed_search_counterexample :
  ((forall i, accepted64_at at_noon (ratings_heap six_ratings (12 # 1)) (mm6 50) 0 i = false)
   /\ fst (find_match64 at_noon (ratings_heap six_ratings (12 # 1)) (mm6 50) 0)
      <> Returned None)
  /\ ((forall i, accepted64_at at_noon (ratings_heap six_ratings (12 # 1))
                               (mkMatchmaker [0; 1; 2; 3; 4; 5]%nat (10 ^ 400) 0) 3 i = false)
      /\ fst (find_match64 at_noon (ratings_heap six_ratings (12 # 1))
                           (mkMatchmaker [0; 1; 2; 3; 4; 5]%nat (10 ^ 400) 0) 3)
         <> Returned None).
Proof.
  split; split.
  - intros i. unfold accepted64_at, verdict_at, nth_window, window.
    change (Z.to_nat (0 * 2)) with 0%nat. cbn [firstn min_queue_time]. reflexivity.
  - vm_compute. discriminate.
  - intros i. unfold accepted64_at.
    destruct (verdict_at tolerance64 _ _ _ _ i) eqn:Hv; try reflexivity.
    unfold verdict_at in Hv. destruct (min_queue_time _ _); [|discriminate].
    assert (tolerance64 (mkMatchmaker [0; 1; 2; 3; 4; 5]%nat (10 ^ 400) 0)
                        (spec_spread (ratings_heap six_ratings (12 # 1))
                           (nth_window (ratings_heap six_ratings (12 # 1))
                              (mkMatchmaker [0; 1; 2; 3; 4; 5]%nat (10 ^ 400) 0) 3 i))
                        (at_noon (Z.of_nat i)) q = Overflow) as Ho.
    { apply tolerance64_overflow. left. vm_compute. reflexivity. }
    congruence.
  - vm_compute. discriminate.
Qed.

(** C8, amended.  For team_size > 0 and tolerance parameters that convert
    to doubles, a call that accepts no window returns no match and leaves
    the matchmaker, queue included, exactly as it was.  Whatever the
    arguments, a call that returns no match has changed nothing; hence two
    successive searches that both find nothing leave the queue of the
    first call in place both times. *)
Theorem find_match64_failed_search_frame
        (clock clock' : Z -> Q) (h : Heap) (self : Matchmaker) (team_size : Z) :
  (0 < team_size ->
   f64_of_int (base_range self) <> None ->
   f64_of_int (range_expansion self) <> None ->
   (forall i, Z.of_nat i + team_size * 2 <= Z.of_nat (List.length (queue self)) ->
              accepted64_at clock h self team_size i = false) ->
   find_match64 clock h self team_size = (Returned None, self))
  /\ (forall self1,
        find_match64 clock h self team_size = (Returned None, self1) -> self1 = self)
  /\ (forall self1 self2,
        find_match64 clock h self team_size = (Returned None, self1) ->
        find_match64 clock' h self1 team_size = (Returned None, self2) ->
        queue self1 = queue self /\ queue self2 = queue self).
Proof.
  split; [|split].
  - intros Hts Hb He Hrej. unfold find_match64.
    destruct (Z.ltb_spec (Z.of_nat (List.length (queue self))) (team_size * 2)) as [Hs|Hl].
    + unfold find_match_by.
      destruct (_ <? _) eqn:E; [reflexivity|]. apply Z.ltb_ge in E. lia.
    + apply find_match_by_none; auto.
      intros i Hi. rewrite verdict64_converted by assumption.
      rewrite Hrej; [reflexivity|]. unfold last_start in Hi. lia.
  - intros self1. apply find_match64_none_frame.
  - intros self1 self2 H1 H2.
    apply find_match64_none_frame in H1. subst self1.
    apply find_match64_none_frame in H2. subst self2. auto.
Qed.

Lemma find_match64_failed_search_frame_witness :
  0 < 3 /\
  f64_of_int (base_range (mm6 20)) <> None /\
  f64_of_int (range_expansion (mm6 20)) <> None /\
  (forall i, Z.of_nat i + 3 * 2 <= Z.of_nat (List.length (queue (mm6 20))) ->
             accepted64_at at_noon (ratings_heap six_ratings (12 # 1)) (mm6 20) 3 i = false) /\
  find_match64 at_noon (ratings_heap six_ratings (12 # 1)) (mm6 20) 3
  = (Returned None, mm6 20).
Proof.
  assert (forall i, Z.of_nat i + 3 * 2 <= Z.of_nat (List.length (queue (mm6 20))) ->
            accepted64_at at_noon (ratings_heap six_ratings (12 # 1)) (mm6 20) 3 i = false)
    as Hrej.
  { intros i Hi. simpl in Hi. assert (i = 0%nat) as -> by lia. vm_compute. reflexivity. }
  assert (f64_of_int (base_range (mm6 20)) <> None) as Hb by (vm_compute; discriminate).
  assert (f64_of_int (range_expansion (mm6 20)) <> None) as He by (vm_compute; discriminate).
  split; [lia|]. split; [exact Hb|]. split; [exact He|]. split; [exact Hrej|].
  apply (proj1 (find_match64_failed_search_frame
                  at_noon at_noon (ratings_heap six_ratings (12 # 1)) (mm6 20) 3));
    [lia|exact Hb|exact He|exact Hrej].
Defined.

(** ** Shape of a returned match *)

Lemma find_match64_some_long (clock : Z -> Q) (h : Heap) (self self' : Matchmaker)
      (team_size : Z) (m : Match) :
  find_match64 clock h self team_size = (Returned (Some m), self') ->
  team_size * 2 <= Z.of_nat (List.length (queue self)).
Proof.
  unfold find_match64, find_match_by. destruct (_ <? _) eqn:E; [discriminate|].
  intros _. apply Z.ltb_ge in E. exact E.
Qed.

Lemma find_match64_some_inv (clock : Z -> Q) (h : Heap) (self self' : Matchmaker)
      (team_size : Z) (m : Match) :
  0 < team_size ->
  find_match64 clock h self team_size = (Returned (Some m), self') ->
  exists i q',
    (i <= last_start self team_size)%nat /\
    team_size * 2 <= Z.of_nat (List.length (queue self)) /\
    verdict_at tolerance64 clock h self team_size i = Accept /\
    (forall j, (j < i)%nat -> verdict_at tolerance64 clock h self team_size j = Reject) /\
    remove_candidates h (nth_window h self team_size i) (queue self) = (None, q') /\
    m = build_match h (nth_window h self team_size i) /\
    self' = set_queue self q'.
Proof.
  intros Hts Hrun.
  pose proof (find_match64_some_long _ _ _ _ _ _ Hrun) as Hlen.
  unfold find_match64 in Hrun.
  destruct (find_match_by_inv tolerance64 clock h self team_size Hts Hlen)
    as [(Hn & _)|(i & Hi & Hr & [(_ & Ho)|(Ha & q' & Hq' & Hfm)])];
    [congruence|congruence|].
  rewrite Hfm in Hrun. injection Hrun as <- <-.
  exists i, q'. repeat split; auto.
Qed.

Lemma find_match64_some_build (clock : Z -> Q) (h : Heap) (self self' : Matchmaker)
      (team_size : Z) (m : Match) :
  find_match64 clock h self team_size = (Returned (Some m), self') ->
  exists candidates, candidates <> [] /\ m = build_match h candidates.
Proof.
  intros H. apply find_match_by_cases in H
    as [(Ho & _)|[(Ho & _)|[(Ho & _)|(i & c & q' & _ & Hne & _ & Ho & _)]]];
    try discriminate.
  injection Ho as ->. eauto.
Qed.

(** ** The two teams *)

(** C10, as stated, fails for a match returned with a negative team size:
    with team_size -1 and five queued players the window is sorted[0:-2],
    three players, so team1 gets two of them (total 2020) and team2 one
    (total 1010). *)
Lemma teams_dominated_counterexample :
  exists m self',
    find_match64 at_noon (ratings_heap six_ratings (12 # 1))
                 (mkMatchmaker [0; 1; 2; 3; 4]%nat 100 10) (-1)
    = (Returned (Some m), self')
    /\ team1 m = [0; 2]%nat
    /\ team2 m = [1]%nat
    /\ sum_mmr (ratings_heap six_ratings (12 # 1)) (team2 m)
       < sum_mmr (ratings_heap six_ratings (12 # 1)) (team1 m).
Proof.
  exists (mkMatch [0; 2]%nat [1]%nat 1010), (mkMatchmaker [3; 4]%nat 100 10).
  split; [vm_compute; reflexivity|]. repeat split; reflexivity.
Qed.

(** C10, amended.  In every match returned for a positive team size, both
    teams are in ascending rating order, team1 holds the even ranks and
    team2 the odd ranks of the sorted window, team1's k-th rating is at
    most team2's k-th rating for every k < team_size, and so team2's total
    rating is at least team1's. *)
Theorem teams64_sorted_and_dominated
        (clock : Z -> Q) (h : Heap) (self self' : Matchmaker) (team_size : Z) (m : Match) :
  0 < team_size ->
  find_match64 clock h self team_size = (Returned (Some m), self') ->
  StronglySorted (mmr_le h) (team1 m)
  /\ StronglySorted (mmr_le h) (team2 m)
  /\ (exists i, StronglySorted (mmr_le h) (nth_window h self team_size i) /\
                team1 m = evens (nth_window h self team_size i) /\
                team2 m = odds (nth_window h self team_size i))
  /\ (forall k, Z.of_nat k < team_size ->
        exists a b, nth_error (team1 m) k = Some a /\ nth_error (team2 m) k = Some b /\
                    mmr (h a) <= mmr (h b))
  /\ sum_mmr h (team1 m) <= sum_mmr h (team2 m).
Proof.
  intros Hts Hrun.
  destruct (find_match64_some_inv _ _ _ _ _ _ Hts Hrun)
    as (i & q' & Hi & Hlen & _ & _ & _ & -> & _).
  destruct (nth_window_facts h self team_size i Hts Hi Hlen) as (Hl & Hs & _).
  set (win := nth_window h self team_size i) in *. simpl.
  assert (List.length win = (2 * Z.to_nat team_size)%nat) as Hl2 by lia.
  pose proof (evens_below_odds (mmr_le h) win _ Hs Hl2) as Hpair.
  split; [now apply evens_sorted|]. split; [now apply odds_sorted|].
  split; [exists i; auto|]. split.
  - intros k Hk. apply (Forall2_nth_error (mmr_le h)); [exact Hpair|].
    destruct (evens_odds_length win _ Hl2) as [-> _]. lia.
  - now apply sum_mmr_pointwise.
Qed.

Lemma teams64_sorted_and_dominated_witness :
  0 < 3 /\
  find_match64 at_noon (ratings_heap six_ratings (12 # 1)) (mm6 50) 3
  = (Returned (Some (mkMatch [0; 2; 4]%nat [1; 3; 5]%nat 1025)), mkMatchmaker [] 50 0) /\
  sum_mmr (ratings_heap six_ratings (12 # 1)) [0; 2; 4]%nat
  <= sum_mmr (ratings_heap six_ratings (12 # 1)) [1; 3; 5]%nat.
Proof.
  split; [lia|]. split; [vm_compute; reflexivity|].
  apply (teams64_sorted_and_dominated
           at_noon (ratings_heap six_ratings (12 # 1)) (mm6 50) (mkMatchmaker [] 50 0) 3
           (mkMatch [0; 2; 4]%nat [1; 3; 5]%nat 1025)).
  - lia.
  - vm_compute; reflexivity.
Defined.

(** ** The average *)

Lemma floor_is_truncation_iff (a b : Z) :
  0 < b -> (a / b = Z.quot a b <-> 0 <= a \/ a mod b = 0).
Proof.
  intros Hb. split.
  - intros H. destruct (Z.le_gt_cases 0 a) as [Ha|Ha]; [now left|right].
    pose proof (Z.div_mod a b ltac:(lia)) as H1.
    pose proof (Z.quot_rem' a b) as H2.
    pose proof (Z.mod_pos_bound a b Hb) as H3.
    pose proof (Z.rem_nonpos a b ltac:(lia) ltac:(lia)) as H4.
    rewrite <- H in H2. lia.
  - intros [Ha|Ha].
    + symmetry. apply Z.quot_div_nonneg; lia.
    + pose proof (Z.div_mod a b ltac:(lia)) as H1. rewrite Ha in H1.
      rewrite H1 at 2. rewrite Z.add_0_r, Z.mul_comm. rewrite Z.quot_mul by lia.
      reflexivity.
Qed.

(** C3, as stated, fails on a negative sum: ratings -1 and -2 sum to -3
    and the code's average is -2, the floor, where rounding toward zero
    gives -1. *)
Lemma average64_rounding_counterexample :
  exists m self',
    find_match64 at_noon (ratings_heap [-1; -2] (12 # 1))
                 (mkMatchmaker [0; 1]%nat 100 10) 1
    = (Returned (Some m), self')
    /\ sum_mmr (ratings_heap [-1; -2] (12 # 1)) (team1 m ++ team2 m) = -3
    /\ List.length (team1 m ++ team2 m) = 2%nat
    /\ average_mmr m = -2
    /\ average_mmr m <> Z.quot (-3) 2.
Proof.
  exists (mkMatch [1]%nat [0]%nat (-2)), (mkMatchmaker [] 100 10).
  split; [vm_compute; reflexivity|].
  repeat split; try reflexivity. vm_compute. discriminate.
Qed.

(** C3, amended.  The average of every returned match is the sum of the
    ratings of the matched players divided by their number and rounded
    down (toward minus infinity), for ratings of any sign; the number is
    [2 * team_size] when team_size is positive; the result is the quotient
    rounded toward zero exactly when the sum is not negative or is a
    multiple of the number of players. *)
Theorem average64_is_floor
        (clock : Z -> Q) (h : Heap) (self self' : Matchmaker) (team_size : Z) (m : Match) :
  find_match64 clock h self team_size = (Returned (Some m), self') ->
  let matched := team1 m ++ team2 m in
  let n := Z.of_nat (List.length matched) in
  0 < n
  /\ average_mmr m = sum_mmr h matched / n
  /\ n * average_mmr m <= sum_mmr h matched < n * average_mmr m + n
  /\ (0 < team_size -> n = 2 * team_size)
  /\ (average_mmr m = Z.quot (sum_mmr h matched) n <->
      0 <= sum_mmr h matched \/ (sum_mmr h matched) mod n = 0).
Proof.
  intros Hrun matched n.
  destruct (find_match64_some_build _ _ _ _ _ _ Hrun) as (c & Hne & Hm).
  assert (Permutation matched c) as Hperm
    by (unfold matched; rewrite Hm; apply evens_odds_perm).
  assert (n = Z.of_nat (List.length c)) as Hn
    by (unfold n; now rewrite (Permutation_length Hperm)).
  assert (0 < n) as Hpos by (destruct c; [congruence|simpl in Hn; lia]).
  assert (average_mmr m = sum_mmr h matched / n) as Havg.
  { rewrite (sum_mmr_perm h _ _ Hperm), Hn, Hm. reflexivity. }
  split; [exact Hpos|]. split; [exact Havg|]. split; [|split].
  - rewrite Havg.
    pose proof (Z.mul_div_le (sum_mmr h matched) n Hpos).
    pose proof (Z.mul_succ_div_gt (sum_mmr h matched) n Hpos). lia.
  - intros Hts.
    destruct (find_match64_some_inv _ _ _ _ _ _ Hts Hrun)
      as (i & q' & Hi & Hlen & _ & _ & _ & Hm' & _).
    destruct (nth_window_facts h self team_size i Hts Hi Hlen) as (Hl & _ & _).
    unfold n, matched. rewrite Hm'. unfold build_match. cbn [team1 team2].
    rewrite (Permutation_length (evens_odds_perm _)), Hl. lia.
  - rewrite Havg. now apply floor_is_truncation_iff.
Qed.

Lemma average64_is_floor_witness :
  find_match64 at_noon (ratings_heap [-1; -2] (12 # 1)) (mkMatchmaker [0; 1]%nat 100 10) 1
  = (Returned (Some (mkMatch [1]%nat [0]%nat (-2))), mkMatchmaker [] 100 10) /\
  average_mmr (mkMatch [1]%nat [0]%nat (-2))
  = sum_mmr (ratings_heap [-1; -2] (12 # 1)) ([1] ++ [0])%nat / 2.
Proof.
  split; [vm_compute; reflexivity|].
  apply (average64_is_floor at_noon (ratings_heap [-1; -2] (12 # 1))
                            (mkMatchmaker [0; 1]%nat 100 10) (mkMatchmaker [] 100 10) 1
                            (mkMatch [1]%nat [0]%nat (-2))).
  vm_compute; reflexivity.
Defined.

(** ** Exceptions of the search *)

(** For a positive team size and tolerance parameters that convert to
    doubles [find_match] always returns: no match, or a match. *)
Theorem find_match64_positive_returns
        (clock : Z -> Q) (h : Heap) (self : Matchmaker) (team_size : Z) :
  0 < team_size ->
  f64_of_int (base_range self) <> None ->
  f64_of_int (range_expansion self) <> None ->
  exists r, fst (find_match64 clock h self team_size) = Returned r.
Proof.
  intros Hts Hb He.
  destruct (find_match64 clock h self team_size) as [o self'] eqn:Hrun.
  apply find_match_by_cases in Hrun
    as [(-> & _)|[(_ & _ & Hle)|[(_ & _ & r & now & e & Ho)
                                |(i & c & q' & _ & _ & _ & -> & _)]]];
    simpl; eauto; [lia|].
  apply tolerance64_overflow in Ho. tauto.
Qed.

Lemma find_match64_positive_returns_witness :
  0 < 3 /\
  f64_of_int (base_range (mm6 50)) <> None /\
  f64_of_int (range_expansion (mm6 50)) <> None /\
  exists r, fst (find_match64 at_noon (ratings_heap six_ratings (12 # 1)) (mm6 50) 3)
            = Returned r.
Proof.
  assert (f64_of_int (base_range (mm6 50)) <> None) as Hb by (vm_compute; discriminate).
  assert (f64_of_int (range_expansion (mm6 50)) <> None) as He by (vm_compute; discriminate).
  split; [lia|]. split; [exact Hb|]. split; [exact He|].
  apply (find_match64_positive_returns
           at_noon (ratings_heap six_ratings (12 # 1)) (mm6 50) 3); [lia|exact Hb|exact He].
Defined.

(** Whatever the arguments, [find_match] raises only IndexError, and then
    team_size is not positive, or OverflowError, and then base_range or
    range_expansion is too large for a double; it never raises ValueError;
    and whenever it raises, the matchmaker is exactly as before the call. *)
Theorem find_match64_exceptions
        (clock : Z -> Q) (h : Heap) (self self' : Matchmaker) (team_size : Z) (e : exn) :
  find_match64 clock h self team_size = (Raised e, self') ->
  self' = self
  /\ ((e = IndexError /\ team_size <= 0)
      \/ (e = OverflowError /\
          (f64_of_int (base_range self) = None \/
           f64_of_int (range_expansion self) = None))).
Proof.
  intros Hrun.
  apply find_match_by_cases in Hrun
    as [(Ho & _)|[(Ho & Hs & Hle)|[(Ho & Hs & r & now & x & Hov)
                                  |(i & c & q' & _ & _ & _ & Ho & _)]]];
    try discriminate; injection Ho as ->; split; auto.
  right. split; [reflexivity|]. now apply tolerance64_overflow in Hov.
Qed.

Lemma find_match64_exceptions_witness :
  find_match64 at_noon (ratings_heap six_ratings (12 # 1))
               (mkMatchmaker [0; 1; 2; 3; 4; 5]%nat 50 (10 ^ 400)) 3
  = (Raised OverflowError, mkMatchmaker [0; 1; 2; 3; 4; 5]%nat 50 (10 ^ 400)) /\
  f64_of_int (range_expansion (mkMatchmaker [0; 1; 2; 3; 4; 5]%nat 50 (10 ^ 400))) = None.
Proof.
  split; [vm_compute; reflexivity|].
  destruct (find_match64_exceptions
              at_noon (ratings_heap six_ratings (12 # 1))
              (mkMatchmaker [0; 1; 2; 3; 4; 5]%nat 50 (10 ^ 400))
              (mkMatchmaker [0; 1; 2; 3; 4; 5]%nat 50 (10 ^ 400)) 3 OverflowError)
    as (_ & [(H & _)|(_ & [H|H])]).
  - vm_compute; reflexivity.
  - discriminate.
  - vm_compute in H. discriminate.
  - exact H.
Defined.

(** ** Rating spread of a match *)

Lemma tolerance64_accept (self : Matchmaker) (r : Z) (now earliest : Q) :
  tolerance64 self r now earliest = Accept ->
  exists base expansion,
    f64_of_int (base_range self) = Some base /\
    f64_of_int (range_expansion self) = Some expansion /\
    int_le_f64 r (f64_add base (f64_mul (f64_sub now earliest) expansion)) = true.
Proof.
  unfold tolerance64.
  destruct (f64_of_int (range_expansion self)) as [x|]; [|discriminate].
  destruct (f64_of_int (base_range self)) as [b|]; [|discriminate].
  destruct (int_le_f64 _ _) eqn:E; [|discriminate].
  intros _. exists b, x. auto.
Qed.

(** In a match returned for a positive team size, the ratings of any two
    matched players differ by at most the tolerance the code computed, in
    binary64, in the iteration that accepted their window: base_range +
    (reading of that iteration - least enqueue reading among the matched
    players) * range_expansion.  That iteration is the first one whose
    window was accepted. *)
Theorem matched64_spread_within_tolerance
        (clock : Z -> Q) (h : Heap) (self self' : Matchmaker) (team_size : Z) (m : Match) :
  0 < team_size ->
  find_match64 clock h self team_size = (Returned (Some m), self') ->
  exists (i : nat) (earliest base expansion : Q),
    (i <= last_start self team_size)%nat
    /\ Permutation (matched m) (nth_window h self team_size i)
    /\ accepted64_at clock h self team_size i = true
    /\ (forall j, (j < i)%nat -> accepted64_at clock h self team_size j = false)
    /\ f64_of_int (base_range self) = Some base
    /\ f64_of_int (range_expansion self) = Some expansion
    /\ In earliest (map (fun p => queue_time (h p)) (matched m))
    /\ (forall p, In p (matched m) -> (earliest <= queue_time (h p))%Q)
    /\ (forall a b, In a (matched m) -> In b (matched m) ->
          int_le_f64 (mmr (h a) - mmr (h b))
                     (f64_add base
                              (f64_mul (f64_sub (clock (Z.of_nat i)) earliest) expansion))
          = true).
Proof.
  intros Hts Hrun.
  destruct (find_match64_some_inv _ _ _ _ _ _ Hts Hrun)
    as (i & q' & Hi & Hlen & Hacc & Hrej & _ & -> & _).
  set (win := nth_window h self team_size i) in *.
  assert (Permutation (matched (build_match h win)) win) as Hperm
    by apply evens_odds_perm.
  pose proof Hacc as Hv. unfold verdict_at in Hv. fold win in Hv.
  destruct (min_queue_time h win) as [e|] eqn:He; [|discriminate].
  destruct (tolerance64_accept _ _ _ _ Hv) as (b & x & Hb & Hx & Hle).
  destruct (min_queue_time_least h win e He) as [Hin Hleast].
  exists i, e, b, x.
  split; [exact Hi|]. split; [exact Hperm|].
  split; [unfold accepted64_at; now rewrite Hacc|].
  split; [intros j Hj; unfold accepted64_at; now rewrite (Hrej j Hj)|].
  split; [exact Hb|]. split; [exact Hx|]. split; [|split].
  - apply (Permutation_in e (Permutation_map _ (Permutation_sym Hperm))). exact Hin.
  - intros p Hp. apply Hleast. now apply (Permutation_in p Hperm).
  - intros a c Ha Hc.
    apply (Permutation_in a Hperm) in Ha. apply (Permutation_in c Hperm) in Hc.
    pose proof (rating_bounds h win a Ha). pose proof (rating_bounds h win c Hc).
    apply (int_le_f64_lower _ (spec_spread h win)); [unfold spec_spread; lia|exact Hle].
Qed.

Lemma matched64_spread_within_tolerance_witness :
  0 < 3 /\
  find_match64 at_noon (ratings_heap six_ratings (12 # 1)) (mm6 50) 3
  = (Returned (Some (mkMatch [0; 2; 4]%nat [1; 3; 5]%nat 1025)), mkMatchmaker [] 50 0) /\
  exists (i : nat) (earliest : Q),
    In earliest (map (fun p => queue_time (ratings_heap six_ratings (12 # 1) p))
                     (matched (mkMatch [0; 2; 4]%nat [1; 3; 5]%nat 1025))).
Proof.
  split; [lia|]. split; [vm_compute; reflexivity|].
  destruct (matched64_spread_within_tolerance
              at_noon (ratings_heap six_ratings (12 # 1)) (mm6 50) (mkMatchmaker [] 50 0) 3
              (mkMatch [0; 2; 4]%nat [1; 3; 5]%nat 1025))
    as (i & e & b & x & _ & _ & _ & _ & _ & _ & He & _).
  - lia.
  - vm_compute; reflexivity.
  - exists i, e. exact He.
Defined.
